(** * Lista della Spesa: a shallow embedding of the collaborative core

    The development follows the TypeScript sources:
    - [src/lib/utils.ts]    code format, validation, (de)serialisation;
    - [src/lib/sorting.ts]  ordering and grouping of the display view;
    - [src/lib/api/*.ts]    list, category and item operations on the store;
    - [src/hooks/useListSubscription.ts] and the list page ([src/app])
                            the merge of change-feed events into local state.

    Strings are sequences of code units.  One [ascii] stands for one code
    unit in the range U+0000..U+00FF; code units above that range are not
    represented. *)

From Stdlib Require Import ZArith List String Ascii Bool Permutation Sorted Lia.
From stdpp Require Import base option list gmap strings.

Import ListNotations.
Local Open Scope Z_scope.
Local Open Scope nat_scope.

(* ===================================================================== *)
(** * The JavaScript runtime, as far as the sources use it *)
(* ===================================================================== *)

Module Js.

(** ** Numbers

    Only integral values and [NaN] occur: time values of [Date], the
    [display_order] column and the results of comparators.  Differences of
    two time values may be rounded by the double format, but never change
    sign, and only the sign is observed. *)
Inductive number : Type :=
| NaN
| Num (z : Z).

Definition sub (a b : number) : number :=
  match a, b with
  | Num x, Num y => Num (x - y)
  | _, _ => NaN
  end.

(** ** Strings *)

(** WhiteSpace and LineTerminator code units below U+0100:
    TAB, LF, VT, FF, CR, SP and NBSP. *)
Definition is_white_space (c : ascii) : bool :=
  let n := nat_of_ascii c in
  ((9 <=? n) && (n <=? 13)) || (n =? 32) || (n =? 160).

Fixpoint trimStart (s : string) : string :=
  match s with
  | EmptyString => EmptyString
  | String c s' => if is_white_space c then trimStart s' else s
  end.

Fixpoint trimEnd (s : string) : string :=
  match s with
  | EmptyString => EmptyString
  | String c s' =>
      match trimEnd s' with
      | EmptyString => if is_white_space c then EmptyString
                       else String c EmptyString
      | t => String c t
      end
  end.

(** [String.prototype.trim] *)
Definition trim (s : string) : string := trimEnd (trimStart s).

Definition is_lower (c : ascii) : bool :=
  let n := nat_of_ascii c in (97 <=? n) && (n <=? 122).

Definition is_upper (c : ascii) : bool :=
  let n := nat_of_ascii c in (65 <=? n) && (n <=? 90).

Definition is_digit (c : ascii) : bool :=
  let n := nat_of_ascii c in (48 <=? n) && (n <=? 57).

Definition upper_char (c : ascii) : ascii :=
  if is_lower c then ascii_of_nat (nat_of_ascii c - 32) else c.

Definition lower_char (c : ascii) : ascii :=
  if is_upper c then ascii_of_nat (nat_of_ascii c + 32) else c.

(** [String.prototype.toUpperCase] on the letters a-z; every other code
    unit is kept.  The sources apply it only to strings that already
    passed the code-format test, which are made of [A-Z0-9-]. *)
Fixpoint toUpperCase (s : string) : string :=
  match s with
  | EmptyString => EmptyString
  | String c s' => String (upper_char c) (toUpperCase s')
  end.

(** ** [Array.prototype.sort]

    The language requires a stable sort and treats a [NaN] returned by the
    comparator as [+0].  For a consistent comparator the result is
    determined by these two requirements; it is computed here by stable
    insertion.  For a comparator that is not consistent the language leaves
    the order to the engine: what is stated below about the order of a
    result, beyond its being a permutation, is stated for consistent
    comparators only. *)
Definition is_positive (v : number) : bool :=
  match v with
  | Num z => (0 <? z)%Z
  | NaN => false
  end.

Section Sort.
Context {A : Type} (comparefn : A -> A -> number).

Fixpoint insert_sorted (x : A) (l : list A) : list A :=
  match l with
  | [] => [x]
  | y :: l' =>
      if is_positive (comparefn x y) then y :: insert_sorted x l'
      else x :: y :: l'
  end.

Definition sort (l : list A) : list A := foldr insert_sorted [] l.
End Sort.

End Js.

(* ===================================================================== *)
(** * Data model ([src/types]) *)
(* ===================================================================== *)

Module Item.
Record t : Type := mk {
  id : string;
  list_id : string;
  name : string;
  category : string;
  bought : bool;
  created_at : string
}.

#[global] Instance eq_dec : EqDecision t.
Proof. solve_decision. Defined.

(** [{ ...item, category: c }] *)
Definition with_category (c : string) (i : t) : t :=
  mk (id i) (list_id i) (name i) c (bought i) (created_at i).
End Item.

Module Category.
Record t : Type := mk {
  id : string;
  list_id : string;
  name : string;
  is_default : bool;
  display_order : Z;
  created_at : string
}.

#[global] Instance eq_dec : EqDecision t.
Proof. solve_decision. Defined.
End Category.

Module GroceryList.
Record t : Type := mk {
  id : string;
  code : string;
  created_at : string
}.

#[global] Instance eq_dec : EqDecision t.
Proof. solve_decision. Defined.
End GroceryList.

(* ===================================================================== *)
(** * Ordering and grouping ([src/lib/sorting.ts]) *)
(* ===================================================================== *)

Module Sorting.

(** Arrays are objects: a reference into a heap of arrays.  [[...a]]
    allocates a fresh array with the elements of [a]; [sort] reorders the
    array it is called on and returns that same reference. *)
Abbreviation heap := (gmap nat (list Item.t)).

Definition spread (h : heap) (a : nat) : option (nat * heap) :=
  l ← h !! a;
  let r := fresh (dom h) in
  Some (r, <[r := l]> h).

Definition sort_in_place (comparefn : Item.t -> Item.t -> Js.number)
    (h : heap) (a : nat) : option (nat * heap) :=
  l ← h !! a;
  Some (a, <[a := Js.sort comparefn l]> h).

(** A category together with its items. *)
Record CategoryWithItems : Type := mkGroup {
  category : Category.t;
  items : list Item.t
}.

Section WithRuntime.
(** [new Date(s).getTime()]: the time value of a timestamp, [NaN] when
    the string is not a date. *)
Variable getTime : string -> Js.number.
(** [a.localeCompare(b)]: negative, zero or positive. *)
Variable localeCompare : string -> string -> Z.

(** The comparator of [sortItemsWithinCategory]. *)
Definition compareItems (a b : Item.t) : Js.number :=
  if negb (Bool.eqb (Item.bought a) (Item.bought b)) then
    (if Item.bought a then Js.Num 1 else Js.Num (-1))
  else
    Js.sub (getTime (Item.created_at a)) (getTime (Item.created_at b)).

Definition sortItemsWithinCategory (h : heap) (items : nat)
    : option (nat * heap) :=
  '(copy, h1) ← spread h items;
  sort_in_place compareItems h1 copy.

(** The comparator of [sortCategories]. *)
Definition compareCategories (a b : Category.t) : Js.number :=
  if Category.is_default a && negb (Category.is_default b) then Js.Num (-1)
  else if negb (Category.is_default a) && Category.is_default b then Js.Num 1
  else if Category.is_default a && Category.is_default b then
    Js.Num (Category.display_order a - Category.display_order b)
  else
    Js.Num (localeCompare (Category.name a) (Category.name b)).

Definition sortCategories (categories : list Category.t)
    : list Category.t :=
  Js.sort compareCategories categories.

(** One iteration of the loop that fills [itemsByCategory]. *)
Definition add_item (m : gmap string (list Item.t)) (item : Item.t)
    : gmap string (list Item.t) :=
  let existing := default [] (m !! Item.category item) in
  <[Item.category item := existing ++ [item]]> m.

Definition itemsByCategory (items : list Item.t)
    : gmap string (list Item.t) :=
  foldl add_item ∅ items.

(** [itemsByCategory.has(cat.name) && itemsByCategory.get(cat.name)!.length > 0] *)
Definition has_items (m : gmap string (list Item.t)) (cat : Category.t)
    : bool :=
  match m !! Category.name cat with
  | Some l => 0 <? length l
  | None => false
  end.

Definition groupItemsByCategory (items : list Item.t)
    (categories : list Category.t) : list CategoryWithItems :=
  let m := itemsByCategory items in
  let categoriesWithItems := List.filter (has_items m) categories in
  let sortedCategories := sortCategories categoriesWithItems in
  List.map (fun category =>
              mkGroup category (default [] (m !! Category.name category)))
           sortedCategories.

End WithRuntime.

End Sorting.

(* ===================================================================== *)
(** * Validation helpers ([src/lib/utils.ts]) *)
(* ===================================================================== *)

Module Utils.

(** The alphabet of [generateListCode]. *)
Definition chars : string := "ABCDEFGHIJKLMNOPQRSTUVWXYZ0123456789".

(** [chars.charAt(i)] *)
Definition charAt (s : string) (i : nat) : string :=
  match String.get i s with
  | Some c => String c EmptyString
  | None => EmptyString
  end.

(** [generateListCode]: the prefix and seven characters of the alphabet.
    [random i] stands for [Math.floor(Math.random() * chars.length)] at the
    [i]-th turn of the loop, a number below the length of the alphabet. *)
Fixpoint draw (random : nat -> nat) (i turns : nat) (code : string) : string :=
  match turns with
  | 0 => code
  | S turns' =>
      draw random (S i) turns'
           (code +:+ charAt chars (random i mod String.length chars))
  end.

Definition generateListCode (random : nat -> nat) : string :=
  draw random 0 7 "GRO-".

(** One code unit of the class [[A-Z0-9]]. *)
Definition is_code_char (c : ascii) : bool := Js.is_upper c || Js.is_digit c.

Fixpoint all_code_chars (s : string) : bool :=
  match s with
  | EmptyString => true
  | String c s' => is_code_char c && all_code_chars s'
  end.

(** [/^GRO-[A-Z0-9]{7}$/.test(code)]: the whole string is the literal
    prefix followed by exactly seven code units of the class. *)
Definition isValidListCodeFormat (code : string) : bool :=
  match code with
  | String "G" (String "R" (String "O" (String "-" suffix))) =>
      (String.length suffix =? 7) && all_code_chars suffix
  | _ => false
  end.

Definition isValidItemName (name : string) : bool :=
  0 <? String.length (Js.trim name).

Definition isValidCategoryName (name : string) : bool :=
  0 <? String.length (Js.trim name).

End Utils.

(* ===================================================================== *)
(** * The durable store behind the client *)
(* ===================================================================== *)

Module Store.

Record PostgrestError : Type := mkError {
  code : string;
  message : string
}.

(** The [{ data, error }] pair every request resolves to. *)
Inductive response (A : Type) : Type :=
| Data (data : A)
| Error (error : PostgrestError).
Arguments Data {A} data.
Arguments Error {A} error.

(** The requests the sources send. *)
Inductive Query : Type :=
| InsertList (code : string)
| InsertCategories (rows : list (string * string * bool * Z))
| DeleteListById (id : string)
| SelectListByCode (code : string)
| SelectCategoryById (id : string)
| SelectCategoriesIlike (list_id pattern : string)
| SelectTopDisplayOrder (list_id : string)
| InsertCategory (list_id name : string) (is_default : bool) (display_order : Z)
| InsertItem (list_id name category : string) (bought : bool)
| UpdateItemsCategory (list_id old_category new_category : string)
| DeleteCategoryById (id : string).

(** The three tables of [supabase/schema.sql], and the environment of a
    session:
    - [outcomes] is what the coming requests meet on their way, in order:
      [Some e] makes the request fail with [e] before it touches a table,
      [None] lets it through; once the script is used up every request goes
      through.  The requests below check the two [UNIQUE] constraints, the
      width of [lists.code] and the condition [is_default = false] of the
      [INSERT] policy on categories of [supabase/policies.sql], and [lists]
      has no [DELETE] policy.  Every other refusal (the network, the
      foreign keys and the [EXISTS] conditions of the policies, the widths
      of the names) is a scripted failure;
    - [journal] lists the requests received so far, oldest first;
    - [uuid n k] is the value [gen_random_uuid()] yields for the [k]-th row
      of the request with number [n], and [now n] the value of [NOW()] for
      that request. *)
Record t : Type := mk {
  lists : list GroceryList.t;
  categories : list Category.t;
  items : list Item.t;
  outcomes : list (option PostgrestError);
  journal : list Query;
  uuid : nat -> nat -> string;
  now : nat -> string
}.

Definition log (q : Query) (s : t) : t :=
  mk (lists s) (categories s) (items s) (outcomes s) (journal s ++ [q])
     (uuid s) (now s).

Definition set_outcomes (o : list (option PostgrestError)) (s : t) : t :=
  mk (lists s) (categories s) (items s) o (journal s) (uuid s) (now s).

Definition set_lists (l : list GroceryList.t) (s : t) : t :=
  mk l (categories s) (items s) (outcomes s) (journal s) (uuid s) (now s).

Definition set_categories (c : list Category.t) (s : t) : t :=
  mk (lists s) c (items s) (outcomes s) (journal s) (uuid s) (now s).

Definition set_items (i : list Item.t) (s : t) : t :=
  mk (lists s) (categories s) i (outcomes s) (journal s) (uuid s) (now s).

(** A request is journalled and takes the next outcome off the script; it
    then either fails as scripted or is served. *)
Definition receive (q : Query) (s : t) : t :=
  set_outcomes (tail (outcomes s)) (log q s).

Definition request {A : Type} (q : Query) (serve : t -> response A * t)
    (s : t) : response A * t :=
  match head (outcomes s) with
  | Some (Some e) => (Error e, receive q s)
  | _ => serve (receive q s)
  end.

(** The failure the next request will meet, if any. *)
Definition next_failure (s : t) : option PostgrestError :=
  match outcomes s with
  | Some e :: _ => Some e
  | _ => None
  end.

(** [.single()]: exactly one row, otherwise the error [PGRST116]. *)
Definition PGRST116 : PostgrestError :=
  mkError "PGRST116" "JSON object requested, multiple (or no) rows returned".

Definition single {A : Type} (rows : list A) : response A :=
  match rows with
  | [row] => Data row
  | _ => Error PGRST116
  end.

(** The error of a violated [UNIQUE] constraint. *)
Definition unique_violation : PostgrestError :=
  mkError "23505" "duplicate key value violates unique constraint".

(** The error of a value that is longer than its column is wide. *)
Definition value_too_long : PostgrestError :=
  mkError "22001" "value too long for type character varying(10)".

(** The error of a row that the policies of its table do not admit. *)
Definition policy_violation : PostgrestError :=
  mkError "42501"
    ("new row violates row-level security policy for table "
     +:+ String (ascii_of_nat 34)
           ("categories" +:+ String (ascii_of_nat 34) EmptyString)).

(** [from('lists').insert({ code }).select().single()]; [code] is
    [VARCHAR(10)] and [UNIQUE]. *)
Definition insert_list (code : string) : t -> response GroceryList.t * t :=
  request (InsertList code) (fun s =>
    if 10 <? String.length code then (Error value_too_long, s)
    else if existsb (fun l => String.eqb (GroceryList.code l) code) (lists s)
    then (Error unique_violation, s)
    else
      let n := length (journal s) in
      let row := GroceryList.mk (uuid s n 0) code (now s n) in
      (Data row, set_lists (lists s ++ [row]) s)).

(** [from('lists').delete().eq('id', id)]: row-level security is enabled
    on [lists] and no policy admits a delete, so the request sees no row;
    it succeeds and removes nothing. *)
Definition delete_list_by_id (id : string) : t -> response unit * t :=
  request (DeleteListById id) (fun s => (Data tt, s)).

(** [from('lists').select().eq('code', code).single()] *)
Definition select_list_by_code (code : string) : t -> response GroceryList.t * t :=
  request (SelectListByCode code) (fun s =>
    (single (List.filter (fun l => String.eqb (GroceryList.code l) code) (lists s)), s)).

(** [from('categories').select().eq('id', id).single()] *)
Definition select_category_by_id (id : string) : t -> response Category.t * t :=
  request (SelectCategoryById id) (fun s =>
    (single (List.filter (fun c => String.eqb (Category.id c) id) (categories s)), s)).

(** ** [ILIKE]

    The pattern language of [LIKE]: [%] matches any sequence, [_] any one
    character, a backslash takes the next character literally.  A pattern
    that ends in a lone backslash matches nothing here; where the server
    raises an error for it instead, that is one of the scripted failures.
    The server reads [*] in the request as [%].  [ILIKE] compares without
    regard to letter case. *)
Definition star_to_percent (c : ascii) : ascii :=
  if Ascii.eqb c "*" then "%"%char else c.

Fixpoint like (p : list ascii) : list ascii -> bool :=
  match p with
  | [] => fun s => match s with [] => true | _ => false end
  | c :: p' =>
      if Ascii.eqb c "%" then
        fix star (s : list ascii) : bool :=
          like p' s || match s with [] => false | _ :: s' => star s' end
      else if Ascii.eqb c "_" then
        fun s => match s with [] => false | _ :: s' => like p' s' end
      else if Ascii.eqb c "\" then
        match p' with
        | [] => fun _ => false
        | d :: p'' =>
            fun s =>
              match s with
              | [] => false
              | x :: s' => Ascii.eqb x d && like p'' s'
              end
        end
      else
        fun s =>
          match s with
          | [] => false
          | x :: s' => Ascii.eqb x c && like p' s'
          end
  end.

Definition lower (s : string) : list ascii :=
  List.map Js.lower_char (list_ascii_of_string s).

Definition ilike (text pattern : string) : bool :=
  like (List.map star_to_percent (lower pattern)) (lower text).

(** [from('categories').select('id').eq('list_id', l).ilike('name', p)] *)
Definition select_categories_ilike (list_id pattern : string)
    : t -> response (list string) * t :=
  request (SelectCategoriesIlike list_id pattern) (fun s =>
    (Data (List.map Category.id
             (List.filter (fun c => String.eqb (Category.list_id c) list_id
                                    && ilike (Category.name c) pattern)
                          (categories s))), s)).

(** [ORDER BY display_order DESC] *)
Fixpoint insert_desc (x : Z) (l : list Z) : list Z :=
  match l with
  | [] => [x]
  | y :: l' => if (x <? y)%Z then y :: insert_desc x l' else x :: y :: l'
  end.

Definition order_desc (l : list Z) : list Z := foldr insert_desc [] l.

(** [from('categories').select('display_order').eq('list_id', l)
      .order('display_order', { ascending: false }).limit(1)] *)
Definition select_top_display_order (list_id : string)
    : t -> response (list Z) * t :=
  request (SelectTopDisplayOrder list_id) (fun s =>
    (Data (take 1 (order_desc
             (List.map Category.display_order
                (List.filter (fun c => String.eqb (Category.list_id c) list_id)
                             (categories s))))), s)).

(** [UNIQUE(list_id, name)] *)
Definition name_in_use (list_id name : string) (rows : list Category.t)
    : bool :=
  existsb (fun c => String.eqb (Category.list_id c) list_id
                    && String.eqb (Category.name c) name) rows.

(** [from('categories').insert({...}).select().single()]: the policy
    admits custom categories only; the server fills in [id] and
    [created_at]. *)
Definition insert_category (list_id name : string) (is_default : bool)
    (display_order : Z) : t -> response Category.t * t :=
  request (InsertCategory list_id name is_default display_order) (fun s =>
    if is_default then (Error policy_violation, s)
    else if name_in_use list_id name (categories s)
    then (Error unique_violation, s)
    else
      let n := length (journal s) in
      let row := Category.mk (uuid s n 0) list_id name is_default
                             display_order (now s n) in
      (Data row, set_categories (categories s ++ [row]) s)).

(** The rows of a bulk insert, added one after the other; the first row
    that the policy or the constraint refuses fails the request. *)
Fixpoint add_rows (uuid : nat -> string) (created_at : string) (k : nat)
    (rows : list (string * string * bool * Z)) (table : list Category.t)
    : response (list Category.t) :=
  match rows with
  | [] => Data table
  | (list_id, name, is_default, display_order) :: rows' =>
      if (is_default : bool) then Error policy_violation
      else if name_in_use list_id name table then Error unique_violation
      else add_rows uuid created_at (S k) rows'
             (table ++ [Category.mk (uuid k) list_id name is_default
                                    display_order created_at])
  end.

(** [from('categories').insert(rows)]: all rows or none. *)
Definition insert_categories (rows : list (string * string * bool * Z))
    : t -> response unit * t :=
  request (InsertCategories rows) (fun s =>
    let n := length (journal s) in
    match add_rows (uuid s n) (now s n) 0 rows (categories s) with
    | Data table => (Data tt, set_categories table s)
    | Error e => (Error e, s)
    end).

(** [from('items').insert({...}).select().single()] *)
Definition insert_item (list_id name category : string) (bought : bool)
    : t -> response Item.t * t :=
  request (InsertItem list_id name category bought) (fun s =>
    let n := length (journal s) in
    let row := Item.mk (uuid s n 0) list_id name category bought (now s n) in
    (Data row, set_items (items s ++ [row]) s)).

(** The row-wise effect of
    [update({ category: c' }).eq('list_id', l).eq('category', c)]. *)
Definition reassign (list_id old_category new_category : string)
    (i : Item.t) : Item.t :=
  if String.eqb (Item.list_id i) list_id
     && String.eqb (Item.category i) old_category
  then Item.with_category new_category i
  else i.

(** [from('items').update({ category: c' }).eq('list_id', l).eq('category', c)] *)
Definition update_items_category (list_id old_category new_category : string)
    : t -> response unit * t :=
  request (UpdateItemsCategory list_id old_category new_category) (fun s =>
    (Data tt,
     set_items (List.map (reassign list_id old_category new_category) (items s))
               s)).

(** [from('categories').delete().eq('id', id)] *)
Definition delete_category_by_id (id : string) : t -> response unit * t :=
  request (DeleteCategoryById id) (fun s =>
    (Data tt,
     set_categories
       (List.filter (fun c => negb (String.eqb (Category.id c) id))
                    (categories s)) s)).

End Store.

(* ===================================================================== *)
(** * Operations on lists, categories and items ([src/lib/api]) *)
(* ===================================================================== *)

Module Api.

Inductive ErrorCode : Type :=
| LIST_NOT_FOUND
| INVALID_INPUT
| DUPLICATE_CATEGORY
| DATABASE_ERROR.

Record ApiError : Type := mkApiError {
  code : ErrorCode;
  message : string;
  details : option string
}.

(** A settled promise: resolved with a value or rejected with the thrown
    error. *)
Inductive result (A : Type) : Type :=
| Ok (value : A)
| Throw (error : ApiError).
Arguments Ok {A} value.
Arguments Throw {A} error.

(** An asynchronous operation: it runs against the store and settles. *)
Definition M (A : Type) : Type := Store.t -> result A * Store.t.

Definition ret {A : Type} (a : A) : M A := fun s => (Ok a, s).

Definition throw {A : Type} (e : ApiError) : M A := fun s => (Throw e, s).

Definition bind {A B : Type} (m : M A) (k : A -> M B) : M B :=
  fun s =>
    match m s with
    | (Ok a, s') => k a s'
    | (Throw e, s') => (Throw e, s')
    end.

(** [await] of a request: the response becomes available, the store moves
    on. *)
Definition await {A : Type} (q : Store.t -> Store.response A * Store.t)
    : M (Store.response A) :=
  fun s => let (r, s') := q s in (Ok r, s').

Notation "'let*' x ':=' m 'in' k" := (bind m (fun x => k))
  (at level 10, x name, m at level 100, k at level 200).

(** The messages of the thrown errors.  The accented letters are the code
    units U+00E0, U+00E8 and U+00F2. *)
Definition a_grave : string := String (ascii_of_nat 224) EmptyString.
Definition e_grave : string := String (ascii_of_nat 232) EmptyString.
Definition o_grave : string := String (ascii_of_nat 242) EmptyString.

Definition database_error (message : string) (e : Store.PostgrestError)
    : ApiError :=
  mkApiError DATABASE_ERROR message (Some (Store.message e)).

(** ** [lists.ts] *)

(** The rows [createList] seeds a new list with. *)
Definition DEFAULT_CATEGORIES : list (string * Z) :=
  [ ("Frutta e Verdura", 1%Z); ("Latticini", 2%Z); ("Carne e Pesce", 3%Z);
    ("Panetteria", 4%Z); ("Pulizia", 5%Z); ("Altro", 6%Z) ].

(** [createList]: the loop runs while [attempts < maxRetries]; [random a]
    is the random source of the attempt with number [a]. *)
Fixpoint createList_loop (random : nat -> nat -> nat) (remaining attempts : nat)
    : M GroceryList.t :=
  match remaining with
  | 0 =>
      throw (mkApiError DATABASE_ERROR
               "Impossibile generare un codice univoco per la lista." None)
  | S remaining' =>
      let code := Utils.generateListCode (random attempts) in
      let* inserted := await (Store.insert_list code) in
      match inserted with
      | Store.Error listError =>
          if String.eqb (Store.code listError) "23505" then
            createList_loop random remaining' (S attempts)
          else
            throw (database_error "Impossibile creare la lista." listError)
      | Store.Data list =>
          let categoriesData :=
            List.map (fun cat : string * Z =>
                        (GroceryList.id list, fst cat, true, snd cat))
                     DEFAULT_CATEGORIES in
          let* seeded := await (Store.insert_categories categoriesData) in
          match seeded with
          | Store.Error categoriesError =>
              let* _ := await (Store.delete_list_by_id (GroceryList.id list)) in
              throw (database_error
                       "Impossibile creare le categorie predefinite."
                       categoriesError)
          | Store.Data _ => ret list
          end
      end
  end.

Definition maxRetries : nat := 5.

Definition createList (random : nat -> nat -> nat) : M GroceryList.t :=
  createList_loop random maxRetries 0.

Definition getListByCode (code : string) : M (option GroceryList.t) :=
  if negb (Utils.isValidListCodeFormat code) then ret None
  else
    let* r := await (Store.select_list_by_code (Js.toUpperCase code)) in
    match r with
    | Store.Error error =>
        if String.eqb (Store.code error) "PGRST116" then ret None
        else throw (database_error "Errore durante il recupero della lista."
                                   error)
    | Store.Data data => ret (Some data)
    end.

(** ** [categories.ts] *)

Definition DEFAULT_REASSIGNMENT_CATEGORY : string := "Altro".

Definition categoryNameExists (listId name : string) : M bool :=
  let* r := await (Store.select_categories_ilike listId (Js.trim name)) in
  match r with
  | Store.Error error =>
      throw (database_error "Errore durante la verifica del nome categoria."
                            error)
  | Store.Data data => ret (0 <? length data)
  end.

Definition createCategory (listId name : string) : M Category.t :=
  if negb (Utils.isValidCategoryName name) then
    throw (mkApiError INVALID_INPUT
             ("Il nome della categoria non pu" +:+ o_grave +:+ " essere vuoto.")
             None)
  else
    let* exists_ := categoryNameExists listId name in
    if (exists_ : bool) then
      throw (mkApiError DUPLICATE_CATEGORY
               ("Una categoria con questo nome esiste gi" +:+ a_grave +:+ ".")
               None)
    else
      let* existingCategories :=
        await (Store.select_top_display_order listId) in
      let nextOrder :=
        match existingCategories with
        | Store.Data (first :: _) => (first + 1)%Z
        | _ => 100%Z
        end in
      let* r := await (Store.insert_category listId (Js.trim name) false
                                             nextOrder) in
      match r with
      | Store.Error error =>
          throw (database_error "Impossibile creare la categoria." error)
      | Store.Data data => ret data
      end.

Definition deleteCategory (categoryId listId : string) : M unit :=
  let* fetched := await (Store.select_category_by_id categoryId) in
  match fetched with
  | Store.Error fetchError =>
      throw (database_error "Categoria non trovata." fetchError)
  | Store.Data category =>
      if Category.is_default category then
        throw (mkApiError INVALID_INPUT
                 ("Non " +:+ e_grave
                  +:+ " possibile eliminare le categorie predefinite.")
                 None)
      else
        let* updated :=
          await (Store.update_items_category listId (Category.name category)
                   DEFAULT_REASSIGNMENT_CATEGORY) in
        match updated with
        | Store.Error updateError =>
            throw (database_error
                     "Errore durante la riassegnazione degli articoli."
                     updateError)
        | Store.Data _ =>
            let* deleted := await (Store.delete_category_by_id categoryId) in
            match deleted with
            | Store.Error deleteError =>
                throw (database_error "Impossibile eliminare la categoria."
                                      deleteError)
            | Store.Data _ => ret tt
            end
        end
  end.

(** ** [items.ts] *)

Definition addItem (listId name category : string) : M Item.t :=
  if negb (Utils.isValidItemName name) then
    throw (mkApiError INVALID_INPUT
             ("Il nome dell'articolo non pu" +:+ o_grave +:+ " essere vuoto.")
             None)
  else if String.eqb category EmptyString || (String.length (Js.trim category) =? 0) then
    throw (mkApiError INVALID_INPUT "Seleziona una categoria." None)
  else
    let* r := await (Store.insert_item listId (Js.trim name) category false) in
    match r with
    | Store.Error error =>
        throw (database_error "Impossibile aggiungere l'articolo." error)
    | Store.Data data => ret data
    end.

End Api.

(* ===================================================================== *)
(** * The change-feed bridge ([useListSubscription.ts], the list page) *)
(* ===================================================================== *)

(** [Partial<Item>] and [Partial<Category>], the types of the old record of
    a change: every member may be missing.  The tables of
    [supabase/schema.sql] keep the default replica identity, so the old
    record of a change to them holds the primary key and nothing else. *)
Module PartialItem.
Record t : Type := mk {
  id : option string;
  list_id : option string;
  name : option string;
  category : option string;
  bought : option bool;
  created_at : option string
}.

(** A record with every member of the row. *)
Definition of_row (i : Item.t) : t :=
  mk (Some (Item.id i)) (Some (Item.list_id i)) (Some (Item.name i))
     (Some (Item.category i)) (Some (Item.bought i))
     (Some (Item.created_at i)).

(** A record with the primary key only. *)
Definition key_only (id : string) : t := mk (Some id) None None None None None.
End PartialItem.

Module PartialCategory.
Record t : Type := mk {
  id : option string;
  list_id : option string;
  name : option string;
  is_default : option bool;
  display_order : option Z;
  created_at : option string
}.

Definition of_row (c : Category.t) : t :=
  mk (Some (Category.id c)) (Some (Category.list_id c))
     (Some (Category.name c)) (Some (Category.is_default c))
     (Some (Category.display_order c)) (Some (Category.created_at c)).

Definition key_only (id : string) : t := mk (Some id) None None None None None.
End PartialCategory.

Module Realtime.

Inductive EventType : Type := INSERT | UPDATE | DELETE.

(** A row-level change notification: [new] and [old] may be missing; [new]
    is a row, [old] a partial record. *)
Record Payload (R O : Type) : Type := mkPayload {
  eventType : EventType;
  new : option R;
  old : option O
}.
Arguments mkPayload {R O} eventType new old.
Arguments eventType {R O} p.
Arguments new {R O} p.
Arguments old {R O} p.

(** [a === b.member] for a member that may be missing: a string never
    equals [undefined]. *)
Definition equals (a : string) (member : option string) : bool :=
  match member with
  | Some b => String.eqb a b
  | None => false
  end.

(** The two pieces of page state the events are merged into. *)
Record View : Type := mkView {
  items : list Item.t;
  categories : list Category.t
}.

(** [setItems(prev => f(prev))] and [setCategories(prev => f(prev))] *)
Definition setItems (f : list Item.t -> list Item.t) (v : View) : View :=
  mkView (f (items v)) (categories v).

Definition setCategories (f : list Category.t -> list Category.t) (v : View)
    : View :=
  mkView (items v) (f (categories v)).

(** The callbacks are optional members of the object handed to the hook.
    The hook hands the old record of a delete over with an unchecked cast
    ([oldRecord as Item], [oldRecord as Category]): the callback reads the
    members of the record as it came. *)
Record UseListSubscriptionCallbacks : Type := mkCallbacks {
  onItemInsert : option (Item.t -> View -> View);
  onItemUpdate : option (Item.t -> View -> View);
  onItemDelete : option (PartialItem.t -> View -> View);
  onCategoryInsert : option (Category.t -> View -> View);
  onCategoryUpdate : option (Category.t -> View -> View);
  onCategoryDelete : option (PartialCategory.t -> View -> View)
}.

(** [realtimeCallbacks] of the list page. *)
Definition realtimeCallbacks : UseListSubscriptionCallbacks := {|
  onItemInsert := Some (fun item =>
    setItems (fun prev =>
      if existsb (fun i => String.eqb (Item.id i) (Item.id item)) prev
      then prev
      else prev ++ [item]));
  onItemUpdate := Some (fun item =>
    setItems (fun prev =>
      List.map (fun i => if String.eqb (Item.id i) (Item.id item)
                         then item else i) prev));
  onItemDelete := Some (fun oldItem =>
    setItems (fun prev =>
      List.filter (fun i => negb (equals (Item.id i) (PartialItem.id oldItem)))
                  prev));
  onCategoryInsert := Some (fun category =>
    setCategories (fun prev =>
      if existsb (fun c => String.eqb (Category.id c) (Category.id category))
                 prev
      then prev
      else prev ++ [category]));
  onCategoryUpdate := Some (fun category =>
    setCategories (fun prev =>
      List.map (fun c => if String.eqb (Category.id c) (Category.id category)
                         then category else c) prev));
  onCategoryDelete := Some (fun oldCategory v =>
    setCategories
      (fun prev =>
         List.filter (fun c => negb (equals (Category.id c)
                                            (PartialCategory.id oldCategory)))
                     prev)
      (setItems
         (fun prev =>
            List.map (fun item =>
                        if equals (Item.category item)
                                  (PartialCategory.name oldCategory)
                        then Item.with_category "Altro" item
                        else item) prev)
         v))
|}.

(** [if (record && callback) callback(record)] *)
Definition call {R : Type} (record : option R)
    (callback : option (R -> View -> View)) (v : View) : View :=
  match record, callback with
  | Some r, Some f => f r v
  | _, _ => v
  end.

Definition handleItemChange (callbacks : UseListSubscriptionCallbacks)
    (payload : Payload Item.t PartialItem.t) : View -> View :=
  match eventType payload with
  | INSERT => call (new payload) (onItemInsert callbacks)
  | UPDATE => call (new payload) (onItemUpdate callbacks)
  | DELETE => call (old payload) (onItemDelete callbacks)
  end.

Definition handleCategoryChange (callbacks : UseListSubscriptionCallbacks)
    (payload : Payload Category.t PartialCategory.t) : View -> View :=
  match eventType payload with
  | INSERT => call (new payload) (onCategoryInsert callbacks)
  | UPDATE => call (new payload) (onCategoryUpdate callbacks)
  | DELETE => call (old payload) (onCategoryDelete callbacks)
  end.

(** What the channel of a list delivers. *)
Inductive Change : Type :=
| ItemChange (payload : Payload Item.t PartialItem.t)
| CategoryChange (payload : Payload Category.t PartialCategory.t).

(** The hook: [channelRef] holds the channel of the list that is open, if
    any. *)
Record Page : Type := mkPage {
  channelRef : option string;
  view : View
}.

(** The effect of the hook for a list identifier, and its cleanup. *)
Definition subscribe (listId : option string) (p : Page) : Page :=
  match listId with
  | None => p
  | Some l => mkPage (Some ("list-" +:+ l)) (view p)
  end.

Definition unsubscribe (p : Page) : Page := mkPage None (view p).

(** A notification reaches the handlers only through a live channel. *)
Definition notify (change : Change) (p : Page) : Page :=
  match channelRef p with
  | None => p
  | Some _ =>
      mkPage (channelRef p)
        (match change with
         | ItemChange payload =>
             handleItemChange realtimeCallbacks payload (view p)
         | CategoryChange payload =>
             handleCategoryChange realtimeCallbacks payload (view p)
         end)
  end.

End Realtime.

(* ===================================================================== *)
(** * [JSON.stringify] and [JSON.parse] *)
(* ===================================================================== *)

Module Json.

(** JSON texts over strings, booleans, [null], arrays and objects.  The
    members of an object are kept in the order of the text.  Numbers do not
    occur in the records that are serialised here and are not part of the
    fragment. *)
#[local] Unset Elimination Schemes.
Inductive value : Type :=
| Null
| Bool (b : bool)
| Str (s : string)
| Arr (elements : list value)
| Obj (members : list (string * value)).
#[local] Set Elimination Schemes.

Definition chars (s : string) : list ascii := list_ascii_of_string s.

(** U+0022 *)
Definition quotation_mark : ascii := Eval cbv in ascii_of_nat 34.

(** ** Writing *)

Definition hex_digit (n : nat) : ascii :=
  if n <? 10 then ascii_of_nat (48 + n) else ascii_of_nat (87 + n).

(** QuoteJSONString, one code unit at a time. *)
Definition quote_char (c : ascii) (k : list ascii) : list ascii :=
  let n := nat_of_ascii c in
  if n =? 8 then "\"%char :: "b"%char :: k
  else if n =? 9 then "\"%char :: "t"%char :: k
  else if n =? 10 then "\"%char :: "n"%char :: k
  else if n =? 12 then "\"%char :: "f"%char :: k
  else if n =? 13 then "\"%char :: "r"%char :: k
  else if n =? 34 then "\"%char :: quotation_mark :: k
  else if n =? 92 then "\"%char :: "\"%char :: k
  else if n <? 32 then
    "\"%char :: "u"%char :: "0"%char :: "0"%char
      :: hex_digit (n / 16) :: hex_digit (n mod 16) :: k
  else c :: k.

Fixpoint quote_chars (s : string) (k : list ascii) : list ascii :=
  match s with
  | EmptyString => k
  | String c s' => quote_char c (quote_chars s' k)
  end.

Definition quote (s : string) (k : list ascii) : list ascii :=
  quotation_mark :: quote_chars s (quotation_mark :: k).

(** The elements of an array, separated by commas, then [close]. *)
Definition write_elements (w : value -> list ascii -> list ascii)
    (close : list ascii) : list value -> list ascii :=
  fix go (l : list value) : list ascii :=
    match l with
    | [] => close
    | v :: l' =>
        w v match l' with
            | [] => close
            | _ :: _ => ","%char :: go l'
            end
    end.

(** The members of an object, separated by commas, then [close]. *)
Definition write_members (w : value -> list ascii -> list ascii)
    (close : list ascii) : list (string * value) -> list ascii :=
  fix go (l : list (string * value)) : list ascii :=
    match l with
    | [] => close
    | (key, v) :: l' =>
        quote key (":"%char ::
          w v match l' with
              | [] => close
              | _ :: _ => ","%char :: go l'
              end)
    end.

(** [write v k] is the text of [v] followed by [k]. *)
Fixpoint write (v : value) (k : list ascii) : list ascii :=
  match v with
  | Null => chars "null" ++ k
  | Bool true => chars "true" ++ k
  | Bool false => chars "false" ++ k
  | Str s => quote s k
  | Arr elements => "["%char :: write_elements write ("]"%char :: k) elements
  | Obj members => "{"%char :: write_members write ("}"%char :: k) members
  end.

(** The fuel [parse_value] needs to read a value back. *)
Definition elements_depth (d : value -> nat) : list value -> nat :=
  fix go (l : list value) : nat :=
    match l with
    | [] => 0
    | v :: l' => S (Nat.max (d v) (go l'))
    end.

Definition members_depth (d : value -> nat) : list (string * value) -> nat :=
  fix go (l : list (string * value)) : nat :=
    match l with
    | [] => 0
    | (_, v) :: l' => S (Nat.max (d v) (go l'))
    end.

Fixpoint depth (v : value) : nat :=
  match v with
  | Arr elements => S (elements_depth depth elements)
  | Obj members => S (members_depth depth members)
  | _ => 1
  end.

Definition stringify (v : value) : string :=
  string_of_list_ascii (write v []).

(** ** Reading *)

Definition is_ws (c : ascii) : bool :=
  let n := nat_of_ascii c in
  (n =? 32) || (n =? 9) || (n =? 10) || (n =? 13).

Fixpoint skip_ws (s : list ascii) : list ascii :=
  match s with
  | [] => []
  | c :: r => if is_ws c then skip_ws r else s
  end.

Fixpoint strip_prefix (p s : list ascii) : option (list ascii) :=
  match p, s with
  | [], _ => Some s
  | a :: p', b :: s' => if Ascii.eqb a b then strip_prefix p' s' else None
  | _ :: _, [] => None
  end.

Definition hex_value (c : ascii) : option nat :=
  let n := nat_of_ascii c in
  if (48 <=? n) && (n <=? 57) then Some (n - 48)
  else if (97 <=? n) && (n <=? 102) then Some (n - 87)
  else if (65 <=? n) && (n <=? 70) then Some (n - 55)
  else None.

(** The code unit of a [\uXXXX] escape, when it is below U+0100. *)
Definition unicode_escape (a b c d : ascii) : option ascii :=
  h3 ← hex_value a; h2 ← hex_value b; h1 ← hex_value c; h0 ← hex_value d;
  if (h3 =? 0) && (h2 =? 0) then Some (ascii_of_nat (16 * h1 + h0)) else None.

Definition simple_escape (c : ascii) : option ascii :=
  let n := nat_of_ascii c in
  if n =? 34 then Some quotation_mark
  else if n =? 92 then Some "\"%char
  else if n =? 47 then Some "/"%char
  else if n =? 98 then Some (ascii_of_nat 8)
  else if n =? 102 then Some (ascii_of_nat 12)
  else if n =? 110 then Some (ascii_of_nat 10)
  else if n =? 114 then Some (ascii_of_nat 13)
  else if n =? 116 then Some (ascii_of_nat 9)
  else None.

Definition push (c : ascii) (r : option (string * list ascii))
    : option (string * list ascii) :=
  '(s, rest) ← r; Some (String c s, rest).

(** The characters of a string literal after its opening quote. *)
Fixpoint parse_string (s : list ascii) : option (string * list ascii) :=
  match s with
  | [] => None
  | c :: r =>
      if Ascii.eqb c quotation_mark then Some (EmptyString, r)
      else if Ascii.eqb c "\" then
        match r with
        | [] => None
        | e :: r' =>
            if Ascii.eqb e "u" then
              match r' with
              | h3 :: h2 :: h1 :: h0 :: r'' =>
                  match unicode_escape h3 h2 h1 h0 with
                  | Some u => push u (parse_string r'')
                  | None => None
                  end
              | _ => None
              end
            else
              match simple_escape e with
              | Some u => push u (parse_string r')
              | None => None
              end
        end
      else if nat_of_ascii c <? 32 then None
      else push c (parse_string r)
  end.

Fixpoint parse_value (fuel : nat) (s : list ascii) {struct fuel}
    : option (value * list ascii) :=
  match fuel with
  | 0 => None
  | S fuel' =>
      match skip_ws s with
      | [] => None
      | c :: r =>
          if Ascii.eqb c "n" then
            r' ← strip_prefix (chars "ull") r; Some (Null, r')
          else if Ascii.eqb c "t" then
            r' ← strip_prefix (chars "rue") r; Some (Bool true, r')
          else if Ascii.eqb c "f" then
            r' ← strip_prefix (chars "alse") r; Some (Bool false, r')
          else if Ascii.eqb c quotation_mark then
            '(str, r') ← parse_string r; Some (Str str, r')
          else if Ascii.eqb c "[" then
            match skip_ws r with
            | [] => None
            | c' :: r' =>
                if Ascii.eqb c' "]" then Some (Arr [], r')
                else '(l, r'') ← parse_elements fuel' r; Some (Arr l, r'')
            end
          else if Ascii.eqb c "{" then
            match skip_ws r with
            | [] => None
            | c' :: r' =>
                if Ascii.eqb c' "}" then Some (Obj [], r')
                else '(l, r'') ← parse_members fuel' r; Some (Obj l, r'')
            end
          else None
      end
  end
with parse_elements (fuel : nat) (s : list ascii) {struct fuel}
    : option (list value * list ascii) :=
  match fuel with
  | 0 => None
  | S fuel' =>
      '(v, r) ← parse_value fuel' s;
      match skip_ws r with
      | [] => None
      | c :: r' =>
          if Ascii.eqb c "," then
            '(l, r'') ← parse_elements fuel' r'; Some (v :: l, r'')
          else if Ascii.eqb c "]" then Some ([v], r')
          else None
      end
  end
with parse_members (fuel : nat) (s : list ascii) {struct fuel}
    : option (list (string * value) * list ascii) :=
  match fuel with
  | 0 => None
  | S fuel' =>
      match skip_ws s with
      | [] => None
      | c :: r =>
          if Ascii.eqb c quotation_mark then
            '(key, r1) ← parse_string r;
            match skip_ws r1 with
            | [] => None
            | c1 :: r2 =>
                if Ascii.eqb c1 ":" then
                  '(v, r3) ← parse_value fuel' r2;
                  match skip_ws r3 with
                  | [] => None
                  | c3 :: r4 =>
                      if Ascii.eqb c3 "," then
                        '(l, r5) ← parse_members fuel' r4;
                        Some ((key, v) :: l, r5)
                      else if Ascii.eqb c3 "}" then Some ([(key, v)], r4)
                      else None
                  end
                else None
            end
          else None
      end
  end.

(** [JSON.parse]: one value, then nothing but white space.  [None] is the
    [SyntaxError]. *)
Definition parse (text : string) : option value :=
  let s := chars text in
  '(v, r) ← parse_value (S (length s)) s;
  match skip_ws r with
  | [] => Some v
  | _ :: _ => None
  end.

(** Property access on a parsed value: the last member with the key. *)
Fixpoint get (key : string) (members : list (string * value)) : option value :=
  match members with
  | [] => None
  | (k, v) :: rest =>
      match get key rest with
      | Some v' => Some v'
      | None => if String.eqb k key then Some v else None
      end
  end.

End Json.

(* ===================================================================== *)
(** * Serialisation of items ([src/lib/utils.ts]) *)
(* ===================================================================== *)

Module Serialization.

(** The object literal with the six fields of [SerializedItem]. *)
Definition serialized (item : Item.t) : Json.value :=
  Json.Obj [ ("id", Json.Str (Item.id item));
             ("list_id", Json.Str (Item.list_id item));
             ("name", Json.Str (Item.name item));
             ("category", Json.Str (Item.category item));
             ("bought", Json.Bool (Item.bought item));
             ("created_at", Json.Str (Item.created_at item)) ].

Definition serializeItem (item : Item.t) : string :=
  Json.stringify (serialized item).

Definition string_field (key : string) (members : list (string * Json.value))
    : option string :=
  match Json.get key members with
  | Some (Json.Str s) => Some s
  | _ => None
  end.

Definition bool_field (key : string) (members : list (string * Json.value))
    : option bool :=
  match Json.get key members with
  | Some (Json.Bool b) => Some b
  | _ => None
  end.

(** Reading the six fields off a parsed value.  The cast
    [as SerializedItem] is unchecked in the sources; a value whose fields do
    not have the declared types is no [Item] and yields [None]. *)
Definition item_of_value (parsed : Json.value) : option Item.t :=
  match parsed with
  | Json.Obj members =>
      id ← string_field "id" members;
      list_id ← string_field "list_id" members;
      name ← string_field "name" members;
      category ← string_field "category" members;
      bought ← bool_field "bought" members;
      created_at ← string_field "created_at" members;
      Some (Item.mk id list_id name category bought created_at)
  | _ => None
  end.

Definition deserializeItem (json : string) : option Item.t :=
  parsed ← Json.parse json; item_of_value parsed.

Definition serializeItems (items : list Item.t) : string :=
  Json.stringify (Json.Arr (List.map serialized items)).

Definition deserializeItems (json : string) : option (list Item.t) :=
  parsed ← Json.parse json;
  match parsed with
  | Json.Arr elements => mapM item_of_value elements
  | _ => None
  end.

End Serialization.

(* ===================================================================== *)
(** * Vocabulary of the statements *)
(* ===================================================================== *)

Module Spec.

(** The timestamp of an item denotes a time value. *)
Definition valid_time (getTime : string -> Js.number) (i : Item.t) : Prop :=
  getTime (Item.created_at i) <> Js.NaN.

(** [a] was created no later than [b]. *)
Definition time_le (getTime : string -> Js.number) (a b : Item.t) : Prop :=
  match getTime (Item.created_at a), getTime (Item.created_at b) with
  | Js.Num x, Js.Num y => (x <= y)%Z
  | _, _ => False
  end.

(** [a] may stand before [b] in a sorted category: a bought item is never
    followed by an unbought one, and items of equal bought state are in
    creation order. *)
Definition item_before (getTime : string -> Js.number) (a b : Item.t) : Prop :=
  (Item.bought a = true -> Item.bought b = true) /\
  (Item.bought a = Item.bought b -> time_le getTime a b).

(** A consistent comparator on names. *)
Definition consistent (localeCompare : string -> string -> Z) : Prop :=
  (forall a b, (0 < localeCompare a b)%Z -> (localeCompare b a <= 0)%Z) /\
  (forall a b c, (localeCompare a b <= 0)%Z -> (localeCompare b c <= 0)%Z ->
                 (localeCompare a c <= 0)%Z).

(** [a] may stand before [b] in the list of categories: defaults before
    customs, defaults by [display_order], customs by name. *)
Definition category_before (localeCompare : string -> string -> Z)
    (a b : Category.t) : Prop :=
  (Category.is_default b = true -> Category.is_default a = true) /\
  (Category.is_default a = true -> Category.is_default b = true ->
   (Category.display_order a <= Category.display_order b)%Z) /\
  (Category.is_default a = false -> Category.is_default b = false ->
   (localeCompare (Category.name a) (Category.name b) <= 0)%Z).

(** The item belongs to the category with this name. *)
Definition in_category (name : string) (i : Item.t) : bool :=
  String.eqb (Item.category i) name.

(** Some category of the list has the name the item refers to. *)
Definition has_category (categories : list Category.t) (i : Item.t) : bool :=
  existsb (fun c => String.eqb (Category.name c) (Item.category i)) categories.

(** Some item refers to the category. *)
Definition is_used (items : list Item.t) (c : Category.t) : bool :=
  existsb (in_category (Category.name c)) items.

(** The item is in exactly one of the groups. *)
Definition in_exactly_one_group (groups : list Sorting.CategoryWithItems)
    (i : Item.t) : Prop :=
  exists g, In g groups /\ In i (Sorting.items g)
    /\ forall g', In g' groups -> In i (Sorting.items g') -> g' = g.

(** A stored name and a submitted name are the same up to the white space
    around the submitted name and up to letter case. *)
Definition same_name (stored submitted : string) : bool :=
  bool_decide (Store.lower stored = Store.lower (Js.trim submitted)).

(** The name is taken in the list. *)
Definition name_taken (s : Store.t) (listId name : string) : bool :=
  existsb (fun c => String.eqb (Category.list_id c) listId
                    && same_name (Category.name c) name)
          (Store.categories s).

(** No character of the name has a meaning in a [LIKE] pattern. *)
Definition is_pattern_char (c : ascii) : bool :=
  Ascii.eqb c "%" || Ascii.eqb c "_" || Ascii.eqb c "\" || Ascii.eqb c "*".

Definition plain_name (name : string) : Prop :=
  Forall (fun c => is_pattern_char c = false) (list_ascii_of_string name).

(** The highest [display_order] among the categories of a list. *)
Definition top_display_order (s : Store.t) (listId : string) : option Z :=
  match List.map Category.display_order
          (List.filter (fun c => String.eqb (Category.list_id c) listId)
                       (Store.categories s)) with
  | [] => None
  | x :: l => Some (fold_right Z.max x l)
  end.

(** A text that begins a value: its first character is no white space and
    closes neither an array nor an object. *)
Definition begins_value (s : list ascii) : Prop :=
  exists c r, s = c :: r /\ Json.is_ws c = false
              /\ Ascii.eqb c "]" = false /\ Ascii.eqb c "}" = false.

(** A comparator that orders names by a key. *)
Definition by_key (key : string -> Z) (a b : string) : Z := (key a - key b)%Z.

Definition first_code_unit (s : string) : Z :=
  match s with
  | EmptyString => (-1)%Z
  | String c _ => Z.of_nat (nat_of_ascii c)
  end.

End Spec.

(* ===================================================================== *)
(** * Sample data *)
(* ===================================================================== *)

Module Sample.

(** A clock that reads a timestamp as the number of its code units. *)
Definition length_time (s : string) : Js.number :=
  Js.Num (Z.of_nat (String.length s)).

Definition collation : string -> string -> Z :=
  Spec.by_key Spec.first_code_unit.

Definition chips : Item.t := Item.mk "i1" "L1" "chips" "Snacks" false "t1".
Definition milk : Item.t := Item.mk "i2" "L1" "latte" "Latticini" true "t22".
Definition apples : Item.t :=
  Item.mk "i3" "L1" "mele" "Frutta e Verdura" false "t".

(** An array of items, and a heap that holds it at reference 0. *)
Definition basket : list Item.t := [milk; chips; apples].

Definition heap : gmap nat (list Item.t) := {[ 0 := basket ]}.

Definition altro : Category.t := Category.mk "c6" "L1" "Altro" true 6 "t2".
Definition latticini : Category.t :=
  Category.mk "c2" "L1" "Latticini" true 2 "t2".
Definition latticini_again : Category.t :=
  Category.mk "c7" "L1" "Latticini" true 7 "t2".
Definition snacks : Category.t :=
  Category.mk "c100" "L1" "Snacks" false 100 "t3".

Definition digit (n : nat) : string :=
  String (ascii_of_nat (48 + n)) EmptyString.

(** Some categories of a list, in no particular order. *)
Definition shelves : list Category.t := [snacks; altro; latticini].

(** The identifiers and timestamps the server hands out. *)
Definition uuid (n k : nat) : string :=
  match n with
  | 1 => "L1"
  | 2 => "c" +:+ digit (S k)
  | _ => "row" +:+ digit n
  end.

Definition now (n : nat) : string := "t" +:+ digit n.

(** The random source of the attempts of [createList]. *)
Definition random (attempt i : nat) : nat := attempt + i.

(** A store without rows that serves every request. *)
Definition empty : Store.t := Store.mk [] [] [] [] [] uuid now.

(** The six default categories of a list, as [createList] seeds them. *)
Definition default_rows : list Category.t :=
  List.map (fun d : string * Z =>
              Category.mk ("c" +:+ digit (Z.to_nat (snd d))) "L1" (fst d)
                          true (snd d) "t2")
           Api.DEFAULT_CATEGORIES.

(** A list that holds its six default categories and nothing else. *)
Definition fresh_list : Store.t :=
  Store.mk [GroceryList.mk "L1" "GRO-ABCDEFG" "t1"] default_rows [] [] []
           uuid now.

(** The same list with a custom category and two items. *)
Definition list_with_snacks : Store.t :=
  Store.mk [GroceryList.mk "L1" "GRO-ABCDEFG" "t1"]
           (default_rows ++ [snacks]) [milk; chips] [] [] uuid now.

(** The same list with a custom category whose name has a backslash. *)
Definition list_with_backslash : Store.t :=
  Store.mk [GroceryList.mk "L1" "GRO-ABCDEFG" "t1"]
           (default_rows
            ++ [Category.mk "c101" "L1" "Cibo\Bevande" false 7 "t3"])
           [] [] [] uuid now.

Definition page : Realtime.Page :=
  Realtime.mkPage (Some "list-L1")
    (Realtime.mkView [milk; chips] (default_rows ++ [snacks])).

End Sample.

(* ===================================================================== *)
(** * Further requests of the store *)
(* ===================================================================== *)

Module Tables.

(** The requests of the read, update and delete operations below take the
    next outcome off the script like the requests of [Store]; the journal
    keeps the requests of [Store.Query] only. *)
Definition request {A : Type}
    (serve : Store.t -> Store.response A * Store.t) (s : Store.t)
    : Store.response A * Store.t :=
  let s' := Store.set_outcomes (tail (Store.outcomes s)) s in
  match head (Store.outcomes s) with
  | Some (Some e) => (Store.Error e, s')
  | _ => serve s'
  end.

(** [ORDER BY key ASC]: rows with equal keys stay in table order. *)
Fixpoint insert_by {A : Type} (key : A -> Z) (x : A) (l : list A) : list A :=
  match l with
  | [] => [x]
  | y :: l' =>
      if (key y <? key x)%Z then y :: insert_by key x l' else x :: y :: l'
  end.

Definition order_by {A : Type} (key : A -> Z) (l : list A) : list A :=
  foldr (insert_by key) [] l.

(** [from('categories').select().eq('list_id', l)
      .order('display_order', { ascending: true })] *)
Definition select_categories (list_id : string)
    : Store.t -> Store.response (list Category.t) * Store.t :=
  request (fun s =>
    (Store.Data
       (order_by Category.display_order
          (List.filter (fun c => String.eqb (Category.list_id c) list_id)
                       (Store.categories s))), s)).

(** [from('items').select().eq('list_id', l)
      .order('created_at', { ascending: true })]; [instant] is the point in
    time a stored timestamp denotes. *)
Definition select_items (instant : string -> Z) (list_id : string)
    : Store.t -> Store.response (list Item.t) * Store.t :=
  request (fun s =>
    (Store.Data
       (order_by (fun i => instant (Item.created_at i))
          (List.filter (fun i => String.eqb (Item.list_id i) list_id)
                       (Store.items s))), s)).

(** [{ ...item, bought }] *)
Definition with_bought (bought : bool) (i : Item.t) : Item.t :=
  Item.mk (Item.id i) (Item.list_id i) (Item.name i) (Item.category i) bought
          (Item.created_at i).

(** [from('items').update({ bought }).eq('id', id)] *)
Definition update_item_bought (id : string) (bought : bool)
    : Store.t -> Store.response unit * Store.t :=
  request (fun s =>
    (Store.Data tt,
     Store.set_items
       (List.map (fun i => if String.eqb (Item.id i) id
                           then with_bought bought i else i)
                 (Store.items s)) s)).

(** [from('items').delete().eq('id', id)] *)
Definition delete_item_by_id (id : string)
    : Store.t -> Store.response unit * Store.t :=
  request (fun s =>
    (Store.Data tt,
     Store.set_items
       (List.filter (fun i => negb (String.eqb (Item.id i) id))
                    (Store.items s)) s)).

End Tables.

(* ===================================================================== *)
(** * Reading, updating and deleting ([src/lib/api]) *)
(* ===================================================================== *)

Module Reads.

(** [getCategories] *)
Definition getCategories (listId : string) : Api.M (list Category.t) :=
  Api.bind (Api.await (Tables.select_categories listId)) (fun r =>
    match r with
    | Store.Error error =>
        Api.throw (Api.database_error
                     "Errore durante il recupero delle categorie." error)
    | Store.Data data => Api.ret data
    end).

(** [getItems] *)
Definition getItems (instant : string -> Z) (listId : string)
    : Api.M (list Item.t) :=
  Api.bind (Api.await (Tables.select_items instant listId)) (fun r =>
    match r with
    | Store.Error error =>
        Api.throw (Api.database_error
                     "Errore durante il recupero degli articoli." error)
    | Store.Data data => Api.ret data
    end).

(** [updateItemBought] *)
Definition updateItemBought (itemId : string) (bought : bool) : Api.M unit :=
  Api.bind (Api.await (Tables.update_item_bought itemId bought)) (fun r =>
    match r with
    | Store.Error error =>
        Api.throw (Api.database_error
                     "Impossibile aggiornare lo stato dell'articolo." error)
    | Store.Data _ => Api.ret tt
    end).

(** [deleteItem] *)
Definition deleteItem (itemId : string) : Api.M unit :=
  Api.bind (Api.await (Tables.delete_item_by_id itemId)) (fun r =>
    match r with
    | Store.Error error =>
        Api.throw (Api.database_error "Impossibile eliminare l'articolo."
                                      error)
    | Store.Data _ => Api.ret tt
    end).

End Reads.

(* ===================================================================== *)
(** * The handlers of the list page and of its forms *)
(* ===================================================================== *)

Module ListPage.

(** [handleItemAdded] *)
Definition handleItemAdded (newItem : Item.t) : Realtime.View -> Realtime.View :=
  Realtime.setItems (fun prev => prev ++ [newItem]).

(** [handleItemUpdated] *)
Definition handleItemUpdated (updatedItem : Item.t)
    : Realtime.View -> Realtime.View :=
  Realtime.setItems (fun prev =>
    List.map (fun item => if String.eqb (Item.id item) (Item.id updatedItem)
                          then updatedItem else item) prev).

(** [handleItemDeleted] *)
Definition handleItemDeleted (itemId : string)
    : Realtime.View -> Realtime.View :=
  Realtime.setItems (fun prev =>
    List.filter (fun item => negb (String.eqb (Item.id item) itemId)) prev).

(** [handleCategoryCreated] *)
Definition handleCategoryCreated (newCategory : Category.t)
    : Realtime.View -> Realtime.View :=
  Realtime.setCategories (fun prev => prev ++ [newCategory]).

(** [handleCategoryDeleted]: the deleted category is looked up in
    [categories], the value of the state in the render the handler belongs
    to; the updates run on the state as it is when they are applied. *)
Definition handleCategoryDeleted (categories : list Category.t)
    (categoryId : string) (v : Realtime.View) : Realtime.View :=
  let deletedCategory :=
    List.find (fun cat => String.eqb (Category.id cat) categoryId)
              categories in
  let v' :=
    match deletedCategory with
    | Some deleted =>
        Realtime.setItems
          (fun prev =>
             List.map (fun item =>
                         if String.eqb (Item.category item)
                                       (Category.name deleted)
                         then Item.with_category "Altro" item
                         else item) prev) v
    | None => v
    end in
  Realtime.setCategories
    (fun prev =>
       List.filter (fun cat => negb (String.eqb (Category.id cat) categoryId))
                   prev) v'.

(** The comparator of [sortedCategories] in the form that adds items. *)
Definition compareOptions (localeCompare : string -> string -> Z)
    (a b : Category.t) : Js.number :=
  if Category.is_default a && Category.is_default b then
    Js.Num (Category.display_order a - Category.display_order b)
  else if Category.is_default a then Js.Num (-1)
  else if Category.is_default b then Js.Num 1
  else Js.Num (localeCompare (Category.name a) (Category.name b)).

(** [sortedCategories] of [AddItemForm] *)
Definition sortedCategories (localeCompare : string -> string -> Z)
    (categories : list Category.t) : list Category.t :=
  Js.sort (compareOptions localeCompare) categories.

(** [customCategories] of [CategoryManager] *)
Definition customCategories (categories : list Category.t)
    : list Category.t :=
  List.filter (fun cat => negb (Category.is_default cat)) categories.

End ListPage.

(* ===================================================================== *)
(** * The handlers of the components *)
(* ===================================================================== *)

Module Components.

(** The keys of [ERROR_MESSAGES] the handlers below show. *)
Inductive Message : Type :=
| LIST_NOT_FOUND
| NETWORK_ERROR
| ITEM_ADD_FAILED
| ITEM_DELETE_FAILED
| ITEM_UPDATE_FAILED
| CATEGORY_CREATE_FAILED
| CATEGORY_DELETE_FAILED
| EMPTY_ITEM_NAME
| EMPTY_CATEGORY_NAME
| SELECT_CATEGORY
| DUPLICATE_CATEGORY.

(** What a handler leaves behind: the message its component shows, the
    state of the page and the store.  A handler runs here from its first
    statement to its last without another event in between; the busy flags
    and the text fields of the components are left out. *)
Record World : Type := mkWorld {
  error : option Message;
  view : Realtime.View;
  store : Store.t
}.




(** [String.prototype.toLowerCase] on the code units below U+0100: the
    letters A-Z and U+00C0 to U+00DE without the multiplication sign U+00D7
    move up by 32, every other code unit is kept. *)
Definition lower_code_unit (c : ascii) : ascii :=
  let n := nat_of_ascii c in
  if ((65 <=? n) && (n <=? 90))
     || ((192 <=? n) && (n <=? 222) && negb (n =? 215))
  then ascii_of_nat (n + 32) else c.

Fixpoint toLowerCase (s : string) : string :=
  match s with
  | EmptyString => EmptyString
  | String c s' => String (lower_code_unit c) (toLowerCase s')
  end.

(** [isDuplicate] of [handleCreateCategory] *)
Definition isDuplicate (categories : list Category.t)
    (newCategoryName : string) : bool :=
  let normalizedName := toLowerCase (Js.trim newCategoryName) in
  existsb (fun cat => String.eqb (toLowerCase (Category.name cat))
                                 normalizedName) categories.

(** [handleCreateCategory] of [CategoryManager], with [onCategoryCreated]
    bound to [handleCategoryCreated]; [categories] is the property the page
    hands down, the categories of its state. *)
Definition handleCreateCategory (listId newCategoryName : string)
    (v : Realtime.View) (s : Store.t) : World :=
  if negb (Utils.isValidCategoryName newCategoryName) then
    mkWorld (Some EMPTY_CATEGORY_NAME) v s
  else if isDuplicate (Realtime.categories v) newCategoryName then
    mkWorld (Some DUPLICATE_CATEGORY) v s
  else
    match Api.createCategory listId (Js.trim newCategoryName) s with
    | (Api.Ok newCategory, s') =>
        mkWorld None (ListPage.handleCategoryCreated newCategory v) s'
    | (Api.Throw _, s') => mkWorld (Some CATEGORY_CREATE_FAILED) v s'
    end.

(** [handleDeleteCategory] of [CategoryManager], with [onCategoryDeleted]
    bound to [handleCategoryDeleted] of the render the click happened in. *)
Definition handleDeleteCategory (listId categoryId : string)
    (v : Realtime.View) (s : Store.t) : World :=
  match Api.deleteCategory categoryId listId s with
  | (Api.Ok _, s') =>
      mkWorld None
        (ListPage.handleCategoryDeleted (Realtime.categories v) categoryId v)
        s'
  | (Api.Throw _, s') => mkWorld (Some CATEGORY_DELETE_FAILED) v s'
  end.

(** The state of the dashboard [loadListData] writes to. *)
Record Dashboard : Type := mkDashboard {
  list : option GroceryList.t;
  shown : Realtime.View;
  failure : option Message
}.

(** [loadListData]: [setError(null)] first; the requests for the items and
    for the categories are both sent before either is awaited, and one
    rejection rejects the pair. *)
Definition loadListData (instant : string -> Z) (code : string)
    (d : Dashboard) (s : Store.t) : Dashboard * Store.t :=
  match Api.getListByCode code s with
  | (Api.Throw _, s1) =>
      (mkDashboard (list d) (shown d) (Some NETWORK_ERROR), s1)
  | (Api.Ok None, s1) =>
      (mkDashboard (list d) (shown d) (Some LIST_NOT_FOUND), s1)
  | (Api.Ok (Some listData), s1) =>
      let (itemsData, s2) :=
        Reads.getItems instant (GroceryList.id listData) s1 in
      let (categoriesData, s3) :=
        Reads.getCategories (GroceryList.id listData) s2 in
      match itemsData, categoriesData with
      | Api.Ok items, Api.Ok categories =>
          (mkDashboard (Some listData) (Realtime.mkView items categories)
                       None, s3)
      | _, _ =>
          (mkDashboard (Some listData) (shown d) (Some NETWORK_ERROR), s3)
      end
  end.

End Components.

(* ===================================================================== *)
(** * Vocabulary of the further statements *)
(* ===================================================================== *)

Module Notions.

(** The three tables of a store. *)
Definition tables (s : Store.t)
    : list GroceryList.t * list Category.t * list Item.t :=
  (Store.lists s, Store.categories s, Store.items s).

(** The rows of a list. *)
Definition items_of (listId : string) (s : Store.t) : list Item.t :=
  List.filter (fun i => String.eqb (Item.list_id i) listId) (Store.items s).

Definition categories_of (listId : string) (s : Store.t) : list Category.t :=
  List.filter (fun c => String.eqb (Category.list_id c) listId)
              (Store.categories s).

(** The page shows the rows the store holds for the list, in some order. *)
Definition in_sync (listId : string) (v : Realtime.View) (s : Store.t)
    : Prop :=
  Realtime.items v ≡ₚ items_of listId s
  /\ Realtime.categories v ≡ₚ categories_of listId s.

(** Ascending by a key. *)
Definition ascending {A : Type} (key : A -> Z) (l : list A) : Prop :=
  StronglySorted (fun a b => (key a <= key b)%Z) l.

(** The number of items of a view with the identifier. *)
Definition shown_times (id : string) (v : Realtime.View) : nat :=
  length (List.filter (fun i => String.eqb (Item.id i) id) (Realtime.items v)).

(** Two time values are the same, or both are missing. *)
Definition same_instant (a b : Js.number) : bool :=
  match a, b with
  | Js.NaN, Js.NaN => true
  | Js.Num x, Js.Num y => (x =? y)%Z
  | _, _ => false
  end.

(** [i] has the bought state and the creation time of [x]. *)
Definition ties_with (getTime : string -> Js.number) (x i : Item.t) : bool :=
  Bool.eqb (Item.bought i) (Item.bought x)
  && same_instant (getTime (Item.created_at i)) (getTime (Item.created_at x)).

End Notions.

(* ===================================================================== *)
(** * Further sample data *)
(* ===================================================================== *)

Module Cases.

(** A clock that reads a timestamp as the number of its code units. *)
Definition instant (s : string) : Z := Z.of_nat (String.length s).

(** What the page shows of the list [Sample.list_with_snacks]. *)
Definition shown : Realtime.View :=
  Realtime.mkView [Sample.milk; Sample.chips]
                  (Sample.default_rows ++ [Sample.snacks]).

(** An item created at the instant [Sample.chips] was, and an array that
    holds both. *)
Definition crisps : Item.t :=
  Item.mk "i4" "L1" "patatine" "Snacks" false "t9".

Definition heap : gmap nat (list Item.t) :=
  {[ 0 := [Sample.milk; Sample.chips; Sample.apples; crisps] ]}.

Definition refused : Store.PostgrestError :=
  Store.mkError "42501" "permission denied".

(** The list with snacks, on a store that refuses the next request. *)
Definition refusing : Store.t :=
  Store.set_outcomes [Some refused] Sample.list_with_snacks.

(** The list with snacks, on a store that serves two requests and refuses
    the third. *)
Definition refusing_third : Store.t :=
  Store.set_outcomes [None; None; Some refused] Sample.list_with_snacks.

End Cases.

(* ===================================================================== *)
(** * Theorems *)
(* ===================================================================== *)


(** * Facts about [Array.prototype.sort] *)

Section SortFacts.
Context {A : Type} (comparefn : A -> A -> Js.number).

Lemma insert_sorted_perm (x : A) (l : list A) :
  Js.insert_sorted comparefn x l ≡ₚ x :: l.
Proof.
  induction l as [|y l IH]; simpl; [done|].
  destruct (Js.is_positive (comparefn x y)); [|done].
  rewrite IH. apply Permutation_swap.
Qed.

Lemma sort_perm (l : list A) : Js.sort comparefn l ≡ₚ l.
Proof.
  induction l as [|x l IH]; simpl; [done|].
  rewrite insert_sorted_perm. by rewrite IH.
Qed.

(** Stability: the elements of a class whose members never compare as
    greater than one another keep their input order. *)
Lemma insert_sorted_stable (class : A -> bool) (x : A) (l : list A) :
  (forall a b, class a = true -> class b = true ->
               Js.is_positive (comparefn a b) = false) ->
  List.filter class (Js.insert_sorted comparefn x l)
  = List.filter class (x :: l).
Proof.
  intros Hclass. induction l as [|y l IH]; [done|].
  simpl. destruct (Js.is_positive (comparefn x y)) eqn:E; [|done].
  simpl. rewrite IH. simpl.
  destruct (class x) eqn:Ex, (class y) eqn:Ey; try done.
  by rewrite (Hclass x y Ex Ey) in E.
Qed.

Lemma sort_stable (class : A -> bool) (l : list A) :
  (forall a b, class a = true -> class b = true ->
               Js.is_positive (comparefn a b) = false) ->
  List.filter class (Js.sort comparefn l) = List.filter class l.
Proof.
  intros Hclass. induction l as [|x l IH]; [done|].
  simpl. rewrite insert_sorted_stable by done. simpl. by rewrite IH.
Qed.

(** Sortedness, for a comparator that is consistent on the elements that
    satisfy [P]. *)
Context (P : A -> Prop) (before : A -> A -> Prop).
Hypothesis before_swap : forall x y, P x -> P y ->
  Js.is_positive (comparefn x y) = true -> before y x.
Hypothesis before_keep : forall x y, P x -> P y ->
  Js.is_positive (comparefn x y) = false -> before x y.
Hypothesis before_trans : forall x y z, P x -> P y -> P z ->
  before x y -> before y z -> before x z.

Lemma insert_sorted_sorted (x : A) (l : list A) :
  P x -> Forall P l -> StronglySorted before l ->
  StronglySorted before (Js.insert_sorted comparefn x l).
Proof using before_swap before_keep before_trans.
  intros Px HP Hs. induction Hs as [|y l Hs IH Hy]; simpl.
  - repeat constructor.
  - apply Forall_cons in HP as [Py HP].
    destruct (Js.is_positive (comparefn x y)) eqn:E.
    + constructor; [by apply IH|].
      rewrite insert_sorted_perm. constructor; [by apply before_swap|done].
    + constructor; [by constructor|].
      constructor; [by apply before_keep|].
      apply Forall_forall. intros z Hz.
      apply before_trans with y; try done.
      * rewrite Forall_forall in HP. by apply HP.
      * by apply before_keep.
      * rewrite Forall_forall in Hy. by apply Hy.
Qed.

Lemma sort_sorted (l : list A) :
  Forall P l -> StronglySorted before (Js.sort comparefn l).
Proof using before_swap before_keep before_trans.
  induction 1 as [|x l Px HP IH]; simpl; [constructor|].
  apply insert_sorted_sorted; try done.
  by rewrite sort_perm.
Qed.

End SortFacts.

Lemma StronglySorted_lookup {A} (R : A -> A -> Prop) (l : list A) i j x y :
  StronglySorted R l -> (i < j)%nat -> l !! i = Some x -> l !! j = Some y -> R x y.
Proof.
  intros Hs. revert i j. induction Hs as [|z l Hs IH Hz]; intros i j Hij Hi Hj.
  - done.
  - destruct j as [|j]; [lia|]. destruct i as [|i]; simpl in *.
    + injection Hi as ->. rewrite Forall_forall in Hz. apply Hz.
      by eapply list_elem_of_lookup_2.
    + apply (IH i j); [lia|done..].
Qed.

(** * Items within a category *)

Section ItemOrder.
Variable getTime : string -> Js.number.

Lemma compareItems_swap (x y : Item.t) :
  Spec.valid_time getTime x -> Spec.valid_time getTime y ->
  Js.is_positive (Sorting.compareItems getTime x y) = true ->
  Spec.item_before getTime y x.
Proof.
  unfold Spec.valid_time, Spec.item_before, Spec.time_le, Sorting.compareItems.
  intros Hx Hy.
  destruct (getTime (Item.created_at x)) as [|tx]; [done|].
  destruct (getTime (Item.created_at y)) as [|ty]; [done|].
  destruct (Item.bought x), (Item.bought y); simpl; intros H; split;
    try done; intros _; apply Z.ltb_lt in H; lia.
Qed.

Lemma compareItems_keep (x y : Item.t) :
  Spec.valid_time getTime x -> Spec.valid_time getTime y ->
  Js.is_positive (Sorting.compareItems getTime x y) = false ->
  Spec.item_before getTime x y.
Proof.
  unfold Spec.valid_time, Spec.item_before, Spec.time_le, Sorting.compareItems.
  intros Hx Hy.
  destruct (getTime (Item.created_at x)) as [|tx]; [done|].
  destruct (getTime (Item.created_at y)) as [|ty]; [done|].
  destruct (Item.bought x), (Item.bought y); simpl; intros H; split;
    try done; intros _; apply Z.ltb_ge in H; lia.
Qed.

Lemma item_before_trans (x y z : Item.t) :
  Spec.item_before getTime x y -> Spec.item_before getTime y z ->
  Spec.item_before getTime x z.
Proof.
  unfold Spec.item_before, Spec.time_le.
  intros [B1 T1] [B2 T2]. split; [tauto|]. intros E.
  destruct (Item.bought x) eqn:Ex, (Item.bought y) eqn:Ey,
    (Item.bought z) eqn:Ez; try discriminate;
    try (specialize (B1 eq_refl)); try (specialize (B2 eq_refl));
    try discriminate;
    specialize (T1 eq_refl); specialize (T2 eq_refl);
    destruct (getTime (Item.created_at x)), (getTime (Item.created_at y)),
      (getTime (Item.created_at z)); try done; lia.
Qed.

Lemma sort_items_sorted (l : list Item.t) :
  Forall (Spec.valid_time getTime) l ->
  StronglySorted (Spec.item_before getTime)
    (Js.sort (Sorting.compareItems getTime) l).
Proof.
  apply (sort_sorted _ (Spec.valid_time getTime)).
  - apply compareItems_swap.
  - apply compareItems_keep.
  - intros x y z _ _ _. apply item_before_trans.
Qed.

End ItemOrder.

(** C5: [sortItemsWithinCategory] returns a new array: the reference it
    returns was not allocated before, the input array still holds the same
    items in the same order, and no other array changes.  The new array is
    a permutation of the input.  When every [created_at] denotes a time
    value, as the timestamps of stored items do, every unbought item
    precedes every bought item in it, and items of equal bought state are
    non-decreasing by creation time. *)
Theorem sortItemsWithinCategory_sorted_copy
    (getTime : string -> Js.number) (h : gmap nat (list Item.t)) (a : nat)
    (l : list Item.t) :
  h !! a = Some l ->
  exists (out : nat) (sorted : list Item.t),
    Sorting.sortItemsWithinCategory getTime h a
      = Some (out, <[out := sorted]> h)
    /\ h !! out = None
    /\ (<[out := sorted]> h) !! a = Some l
    /\ sorted ≡ₚ l
    /\ (Forall (Spec.valid_time getTime) l ->
        forall (i j : nat) (x y : Item.t),
          i < j -> sorted !! i = Some x -> sorted !! j = Some y ->
          Spec.item_before getTime x y).
Proof.
  intros Ha.
  set (out := fresh (dom h)).
  assert (Hout : h !! out = None).
  { apply not_elem_of_dom. apply is_fresh. }
  exists out, (Js.sort (Sorting.compareItems getTime) l).
  split; [|split; [done|split; [|split]]].
  - unfold Sorting.sortItemsWithinCategory, Sorting.spread,
      Sorting.sort_in_place.
    rewrite Ha. simpl. fold out. rewrite lookup_insert_eq. simpl.
    by rewrite insert_insert_eq.
  - rewrite lookup_insert_ne; [done|]. intros ->. congruence.
  - apply sort_perm.
  - intros Hv i j x y Hij Hi Hj.
    eapply StronglySorted_lookup; [|exact Hij|exact Hi|exact Hj].
    by apply sort_items_sorted.
Qed.

Lemma sortItemsWithinCategory_sorted_copy_witness :
  exists (out : nat) (sorted : list Item.t),
    Sorting.sortItemsWithinCategory Sample.length_time Sample.heap 0
      = Some (out, <[out := sorted]> Sample.heap)
    /\ sorted ≡ₚ Sample.basket
    /\ (forall (i j : nat) (x y : Item.t),
          i < j -> sorted !! i = Some x -> sorted !! j = Some y ->
          Spec.item_before Sample.length_time x y).
Proof.
  assert (H0 : Sample.heap !! 0 = Some Sample.basket)
    by (vm_compute; reflexivity).
  destruct (sortItemsWithinCategory_sorted_copy Sample.length_time
              Sample.heap 0 Sample.basket H0)
    as (out & sorted & H1 & _ & _ & H4 & H5).
  exists out, sorted. split; [exact H1|]. split; [exact H4|].
  apply H5. repeat constructor; discriminate.
Defined.

(** * Grouping *)

Lemma add_item_lookup (m : gmap string (list Item.t)) (x : Item.t) (k : string) :
  Sorting.add_item m x !! k =
    if Spec.in_category k x then Some (default [] (m !! k) ++ [x]) else m !! k.
Proof.
  unfold Sorting.add_item, Spec.in_category.
  destruct (String.eqb_spec (Item.category x) k) as [->|Hne].
  - by rewrite lookup_insert_eq.
  - by rewrite lookup_insert_ne.
Qed.

Lemma foldl_add_item_lookup (items : list Item.t)
    (m : gmap string (list Item.t)) (k : string) :
  foldl Sorting.add_item m items !! k =
    match List.filter (Spec.in_category k) items with
    | [] => m !! k
    | l => Some (default [] (m !! k) ++ l)
    end.
Proof.
  revert m. induction items as [|x items IH]; intros m; simpl; [done|].
  rewrite IH, add_item_lookup.
  destruct (Spec.in_category k x); simpl.
  - destruct (List.filter (Spec.in_category k) items); [done|].
    by rewrite <- app_assoc.
  - done.
Qed.

Lemma itemsByCategory_lookup (items : list Item.t) (k : string) :
  Sorting.itemsByCategory items !! k =
    match List.filter (Spec.in_category k) items with
    | [] => None
    | l => Some l
    end.
Proof.
  unfold Sorting.itemsByCategory. rewrite foldl_add_item_lookup.
  by rewrite lookup_empty.
Qed.

Lemma filter_nil_existsb {A} (p : A -> bool) (l : list A) :
  List.filter p l = [] <-> existsb p l = false.
Proof.
  induction l as [|x l IH]; simpl; [done|].
  destruct (p x); simpl; [split; discriminate|done].
Qed.

Lemma has_items_is_used (items : list Item.t) (c : Category.t) :
  Sorting.has_items (Sorting.itemsByCategory items) c = Spec.is_used items c.
Proof.
  unfold Sorting.has_items, Spec.is_used. rewrite itemsByCategory_lookup.
  destruct (List.filter _ items) as [|x l] eqn:E.
  - symmetry. by apply filter_nil_existsb.
  - simpl. symmetry. apply not_false_iff_true. intros H.
    apply filter_nil_existsb in H. congruence.
Qed.

Lemma group_items_filter (items : list Item.t) (k : string) :
  default [] (Sorting.itemsByCategory items !! k)
    = List.filter (Spec.in_category k) items.
Proof.
  rewrite itemsByCategory_lookup. by destruct (List.filter _ items).
Qed.

(** The groups, without the intermediate map. *)
Lemma groupItemsByCategory_eq (localeCompare : string -> string -> Z)
    (items : list Item.t) (categories : list Category.t) :
  Sorting.groupItemsByCategory localeCompare items categories =
    List.map (fun c => Sorting.mkGroup c
                (List.filter (Spec.in_category (Category.name c)) items))
      (Sorting.sortCategories localeCompare
         (List.filter (Spec.is_used items) categories)).
Proof.
  unfold Sorting.groupItemsByCategory.
  rewrite (filter_ext _ _ (has_items_is_used items)).
  apply map_ext. intros c. by rewrite group_items_filter.
Qed.

Lemma concat_map_perm {A B} (f : A -> list B) (l1 l2 : list A) :
  l1 ≡ₚ l2 -> concat (List.map f l1) ≡ₚ concat (List.map f l2).
Proof.
  induction 1 as [|x l1 l2 _ IH|x y l|l1 l2 l3 _ IH1 _ IH2]; simpl.
  - done.
  - by rewrite IH.
  - rewrite !app_assoc. apply Permutation_app_tail, Permutation_app_comm.
  - by rewrite IH1.
Qed.

Lemma concat_map_filter_nil {A B} (f : A -> list B) (p : A -> bool)
    (l : list A) :
  (forall x, p x = false -> f x = []) ->
  concat (List.map f (List.filter p l)) = concat (List.map f l).
Proof.
  intros H. induction l as [|x l IH]; simpl; [done|].
  destruct (p x) eqn:E; simpl; rewrite IH; [done|].
  by rewrite (H x E).
Qed.

Lemma filter_orb_disjoint {A} (p q : A -> bool) (l : list A) :
  (forall x, p x = true -> q x = false) ->
  List.filter (fun x => p x || q x) l ≡ₚ List.filter p l ++ List.filter q l.
Proof.
  intros H. induction l as [|x l IH]; simpl; [done|].
  destruct (p x) eqn:Ep; simpl.
  - rewrite (H x Ep). by rewrite IH.
  - destruct (q x); [|done]. rewrite IH. apply Permutation_middle.
Qed.

Lemma has_category_false (categories : list Category.t) (i : Item.t) :
  ~ In (Item.category i) (List.map Category.name categories) ->
  Spec.has_category categories i = false.
Proof.
  intros H. unfold Spec.has_category. apply not_true_iff_false. intros E.
  apply existsb_exists in E as (c & Hc & E). apply String.eqb_eq in E.
  apply H. rewrite <- E. by apply in_map.
Qed.

Lemma concat_groups_perm (items : list Item.t) (categories : list Category.t) :
  List.NoDup (List.map Category.name categories) ->
  concat (List.map (fun c => List.filter (Spec.in_category (Category.name c))
                                         items) categories)
    ≡ₚ List.filter (Spec.has_category categories) items.
Proof.
  induction categories as [|c cs IH]; intros Hnd; simpl.
  - induction items; simpl; done.
  - inversion Hnd as [|? ? Hc Hcs]; subst.
    rewrite (IH Hcs).
    rewrite <- filter_orb_disjoint.
    + erewrite filter_ext; [done|]. intros i. unfold Spec.has_category.
      simpl. unfold Spec.in_category. by rewrite String.eqb_sym.
    + intros i E. apply String.eqb_eq in E. apply has_category_false.
      by rewrite E.
Qed.

Lemma NoDup_map_inj {A B} (f : A -> B) (l : list A) (x y : A) :
  List.NoDup (List.map f l) -> In x l -> In y l -> f x = f y -> x = y.
Proof.
  induction l as [|z l IH]; simpl; [done|].
  intros Hnd Hx Hy E. inversion Hnd as [|? ? Hz Hl]; subst.
  destruct Hx as [->|Hx], Hy as [->|Hy]; try done.
  - exfalso. apply Hz. rewrite E. by apply in_map.
  - exfalso. apply Hz. rewrite <- E. by apply in_map.
  - by apply IH.
Qed.

(** * Categories *)

Section CategoryOrder.
Variable localeCompare : string -> string -> Z.
Hypothesis Hconsistent : Spec.consistent localeCompare.

Lemma compareCategories_swap (x y : Category.t) :
  Js.is_positive (Sorting.compareCategories localeCompare x y) = true ->
  Spec.category_before localeCompare y x.
Proof using Hconsistent.
  destruct Hconsistent as [Hanti _].
  unfold Sorting.compareCategories, Spec.category_before.
  destruct (Category.is_default x), (Category.is_default y); simpl;
    intros H; try discriminate; apply Z.ltb_lt in H;
    repeat split; try done; intros _ _; [lia|by apply Hanti].
Qed.

Lemma compareCategories_keep (x y : Category.t) :
  Js.is_positive (Sorting.compareCategories localeCompare x y) = false ->
  Spec.category_before localeCompare x y.
Proof.
  unfold Sorting.compareCategories, Spec.category_before.
  destruct (Category.is_default x), (Category.is_default y); simpl;
    intros H; try discriminate; try apply Z.ltb_ge in H;
    repeat split; try done; intros _ _; lia.
Qed.

Lemma category_before_trans (x y z : Category.t) :
  Spec.category_before localeCompare x y ->
  Spec.category_before localeCompare y z ->
  Spec.category_before localeCompare x z.
Proof using Hconsistent.
  destruct Hconsistent as [_ Htrans].
  unfold Spec.category_before. intros (A1 & B1 & C1) (A2 & B2 & C2).
  destruct (Category.is_default x) eqn:Ex, (Category.is_default y) eqn:Ey,
    (Category.is_default z) eqn:Ez; repeat split; try done;
    try (intros; discriminate); try (by (exfalso; auto)); intros _ _.
  - specialize (B1 eq_refl eq_refl). specialize (B2 eq_refl eq_refl). lia.
  - discriminate (A2 eq_refl).
  - discriminate (A1 eq_refl).
  - by eapply Htrans; [apply C1|apply C2].
Qed.

Lemma sortCategories_sorted (categories : list Category.t) :
  StronglySorted (Spec.category_before localeCompare)
    (Sorting.sortCategories localeCompare categories).
Proof using Hconsistent.
  apply (sort_sorted _ (fun _ => True)).
  - intros x y _ _. apply compareCategories_swap.
  - intros x y _ _. apply compareCategories_keep.
  - intros x y z _ _ _. apply category_before_trans.
  - by apply Forall_forall.
Qed.

End CategoryOrder.

Lemma sortCategories_perm (localeCompare : string -> string -> Z)
    (categories : list Category.t) :
  Sorting.sortCategories localeCompare categories ≡ₚ categories.
Proof. apply sort_perm. Qed.

(** C1, amended: the categories of the groups are the categories that some
    item refers to, ordered as [sortCategories] orders them (defaults first
    by [display_order], then customs by name, for a consistent
    [localeCompare]); the items of a group are exactly the input items that
    carry the name of its category, in input order, and there is at least
    one.  When the names of the given categories are pairwise distinct, the
    groups together hold exactly the input items whose category is the name
    of a given category, each such item in exactly one group.  An item whose
    category is the name of no given category is in no group. *)
Theorem groupItemsByCategory_partition
    (localeCompare : string -> string -> Z) (items : list Item.t)
    (categories : list Category.t) :
  let groups := Sorting.groupItemsByCategory localeCompare items categories in
  List.map Sorting.category groups
    = Sorting.sortCategories localeCompare
        (List.filter (Spec.is_used items) categories)
  /\ (forall g, In g groups ->
        Sorting.items g
          = List.filter
              (Spec.in_category (Category.name (Sorting.category g))) items
        /\ Sorting.items g <> [])
  /\ (Spec.consistent localeCompare ->
        StronglySorted (Spec.category_before localeCompare)
          (List.map Sorting.category groups))
  /\ (List.NoDup (List.map Category.name categories) ->
        concat (List.map Sorting.items groups)
          ≡ₚ List.filter (Spec.has_category categories) items
        /\ (forall i, In i items -> Spec.has_category categories i = true ->
              Spec.in_exactly_one_group groups i))
  /\ (forall i, Spec.has_category categories i = false ->
        forall g, In g groups -> ~ In i (Sorting.items g)).
Proof.
  intros groups. subst groups. rewrite groupItemsByCategory_eq.
  set (used := List.filter (Spec.is_used items) categories).
  set (mk := fun c => Sorting.mkGroup c
                (List.filter (Spec.in_category (Category.name c)) items)).
  assert (Hcat : List.map Sorting.category
                   (List.map mk (Sorting.sortCategories localeCompare used))
                 = Sorting.sortCategories localeCompare used).
  { rewrite map_map. simpl. apply map_id. }
  assert (Hin : forall g,
             In g (List.map mk (Sorting.sortCategories localeCompare used)) ->
             exists c, g = mk c /\ In c categories
                       /\ Spec.is_used items c = true).
  { intros g Hg. apply in_map_iff in Hg as (c & <- & Hc). exists c.
    split; [done|]. apply list_elem_of_In in Hc.
    rewrite sortCategories_perm in Hc. apply list_elem_of_In in Hc.
    by apply filter_In in Hc. }
  split; [exact Hcat|]. split; [|split; [|split]].
  - intros g Hg. destruct (Hin g Hg) as (c & -> & Hc & Hu). simpl.
    split; [done|]. intros E. apply filter_nil_existsb in E.
    unfold Spec.is_used in Hu. congruence.
  - intros Hcons. rewrite Hcat. by apply sortCategories_sorted.
  - intros Hnd. split.
    + rewrite map_map. simpl.
      rewrite (concat_map_perm _ _ used) by apply sortCategories_perm.
      subst used. rewrite concat_map_filter_nil.
      * by apply concat_groups_perm.
      * intros c Hc. by apply filter_nil_existsb.
    + intros i Hi Hhas. unfold Spec.has_category in Hhas.
      apply existsb_exists in Hhas as (c & Hc & E). apply String.eqb_eq in E.
      assert (Hic : Spec.in_category (Category.name c) i = true).
      { unfold Spec.in_category. by apply String.eqb_eq. }
      exists (mk c). split; [|split].
      * apply in_map. apply list_elem_of_In. rewrite sortCategories_perm.
        apply list_elem_of_In. apply filter_In. split; [done|].
        unfold Spec.is_used. apply existsb_exists. by exists i.
      * simpl. by apply filter_In.
      * intros g' Hg' Hi'. destruct (Hin g' Hg') as (c' & -> & Hc' & _).
        simpl in Hi'. apply filter_In in Hi' as [_ Hi'].
        unfold Spec.in_category in Hi'. apply String.eqb_eq in Hi'.
        f_equal. apply (NoDup_map_inj Category.name categories); try done.
        congruence.
  - intros i Hno g Hg Hi. destruct (Hin g Hg) as (c & -> & Hc & _).
    simpl in Hi. apply filter_In in Hi as [_ Hi].
    unfold Spec.in_category in Hi. apply String.eqb_eq in Hi.
    unfold Spec.has_category in Hno.
    apply not_true_iff_false in Hno. apply Hno.
    apply existsb_exists. exists c. split; [done|]. by apply String.eqb_eq.
Qed.

Lemma groupItemsByCategory_partition_witness :
  StronglySorted (Spec.category_before Sample.collation)
    (List.map Sorting.category
       (Sorting.groupItemsByCategory Sample.collation Sample.basket
          Sample.shelves))
  /\ concat (List.map Sorting.items
       (Sorting.groupItemsByCategory Sample.collation Sample.basket
          Sample.shelves))
     ≡ₚ List.filter (Spec.has_category Sample.shelves) Sample.basket.
Proof.
  destruct (groupItemsByCategory_partition Sample.collation Sample.basket
              Sample.shelves) as (_ & _ & H3 & H4 & _).
  split.
  - apply H3. unfold Spec.consistent, Sample.collation, Spec.by_key.
    split; intros; lia.
  - apply H4. repeat constructor; simpl; intuition discriminate.
Defined.

(** C1, as stated, fails: an item whose category is not among the given
    categories is in no group, and an item is in two groups when two of the
    given categories have its category name. *)
Lemma groupItemsByCategory_not_exactly_one :
  ~ Spec.in_exactly_one_group
      (Sorting.groupItemsByCategory Sample.collation
         [Sample.chips; Sample.milk] [Sample.altro; Sample.latticini])
      Sample.chips
  /\ ~ Spec.in_exactly_one_group
        (Sorting.groupItemsByCategory Sample.collation [Sample.milk]
           [Sample.latticini_again; Sample.latticini])
        Sample.milk.
Proof.
  split.
  - assert (E : Sorting.groupItemsByCategory Sample.collation
                  [Sample.chips; Sample.milk] [Sample.altro; Sample.latticini]
                = [Sorting.mkGroup Sample.latticini [Sample.milk]])
      by (vm_compute; reflexivity).
    rewrite E. intros (g & Hg & Hi & _).
    destruct Hg as [<-|[]]. destruct Hi as [Hi|[]]. discriminate Hi.
  - assert (E : Sorting.groupItemsByCategory Sample.collation [Sample.milk]
                  [Sample.latticini_again; Sample.latticini]
                = [Sorting.mkGroup Sample.latticini [Sample.milk];
                   Sorting.mkGroup Sample.latticini_again [Sample.milk]])
      by (vm_compute; reflexivity).
    rewrite E. intros (g & _ & _ & Huniq).
    assert (H1 : Sorting.mkGroup Sample.latticini [Sample.milk] = g).
    { apply Huniq; simpl; auto. }
    assert (H2 : Sorting.mkGroup Sample.latticini_again [Sample.milk] = g).
    { apply Huniq; simpl; auto. }
    rewrite <- H2 in H1. discriminate H1.
Qed.

(** * The store *)

Lemma request_served {A} (q : Store.Query)
    (serve : Store.t -> Store.response A * Store.t) (s : Store.t) :
  Store.next_failure s = None ->
  Store.request q serve s = serve (Store.receive q s).
Proof.
  unfold Store.next_failure, Store.request.
  by destruct (Store.outcomes s) as [|[e|] rest].
Qed.

Lemma request_failed {A} (q : Store.Query)
    (serve : Store.t -> Store.response A * Store.t) (s : Store.t)
    (e : Store.PostgrestError) :
  Store.next_failure s = Some e ->
  Store.request q serve s = (Store.Error e, Store.receive q s).
Proof.
  unfold Store.next_failure, Store.request.
  destruct (Store.outcomes s) as [|[e'|] rest]; try done.
  by intros [= ->].
Qed.

Lemma next_failure_nil (s : Store.t) :
  Store.outcomes s = [] -> Store.next_failure s = None.
Proof. unfold Store.next_failure. by intros ->. Qed.

(** * Validation *)

Lemma length_zero_empty (s : string) : String.length s = 0 <-> s = EmptyString.
Proof. destruct s; simpl; split; intros; try done. Qed.

Lemma isValidItemName_trim (name : string) :
  Utils.isValidItemName name = false <-> Js.trim name = EmptyString.
Proof.
  unfold Utils.isValidItemName. rewrite <- length_zero_empty.
  rewrite Nat.ltb_ge. lia.
Qed.



(** * Lists *)

Lemma upper_char_code_char (c : ascii) :
  Utils.is_code_char c = true -> Js.upper_char c = c.
Proof.
  unfold Utils.is_code_char, Js.upper_char, Js.is_upper, Js.is_digit,
    Js.is_lower.
  intros H.
  destruct ((97 <=? nat_of_ascii c) && (nat_of_ascii c <=? 122)) eqn:E;
    [|done].
  exfalso. apply andb_true_iff in E as [E1 E2].
  apply Nat.leb_le in E1, E2.
  apply orb_true_iff in H as [H|H]; apply andb_true_iff in H as [H1 H2];
    apply Nat.leb_le in H1, H2; lia.
Qed.

Lemma toUpperCase_code_chars (s : string) :
  Utils.all_code_chars s = true -> Js.toUpperCase s = s.
Proof.
  induction s as [|c s IH]; simpl; [done|].
  intros H. apply andb_true_iff in H as [Hc Hs].
  by rewrite upper_char_code_char, IH.
Qed.

Lemma charAt_chars (n : nat) :
  exists c, Utils.charAt Utils.chars (n mod 36) = String c EmptyString
            /\ Utils.is_code_char c = true.
Proof.
  pose proof (Nat.mod_upper_bound n 36 ltac:(lia)) as H.
  destruct (n mod 36) as [|m]; [by eexists|].
  do 35 (destruct m as [|m]; [by eexists|]). lia.
Qed.

(** Every generated code has the format the validator accepts. *)
Lemma generateListCode_valid (random : nat -> nat) :
  Utils.isValidListCodeFormat (Utils.generateListCode random) = true.
Proof.
  unfold Utils.generateListCode. cbn [Utils.draw].
  change (String.length Utils.chars) with 36.
  destruct (charAt_chars (random 0)) as (c0 & -> & H0).
  destruct (charAt_chars (random 1)) as (c1 & -> & H1).
  destruct (charAt_chars (random 2)) as (c2 & -> & H2).
  destruct (charAt_chars (random 3)) as (c3 & -> & H3).
  destruct (charAt_chars (random 4)) as (c4 & -> & H4).
  destruct (charAt_chars (random 5)) as (c5 & -> & H5).
  destruct (charAt_chars (random 6)) as (c6 & -> & H6).
  simpl. by rewrite H0, H1, H2, H3, H4, H5, H6.
Qed.

(** A code of the right format is its own upper-case form. *)
Lemma toUpperCase_valid_code (code : string) :
  Utils.isValidListCodeFormat code = true -> Js.toUpperCase code = code.
Proof.
  unfold Utils.isValidListCodeFormat. intros H.
  destruct code as [|[[] [] [] [] [] [] [] []] code]; try done.
  destruct code as [|[[] [] [] [] [] [] [] []] code]; try done.
  destruct code as [|[[] [] [] [] [] [] [] []] code]; try done.
  destruct code as [|[[] [] [] [] [] [] [] []] suffix]; try done.
  apply andb_true_iff in H as [_ H]. simpl.
  by rewrite (toUpperCase_code_chars suffix H).
Qed.

(** C8: for a string that does not have the code format, [getListByCode]
    resolves to [null] and sends nothing to the store.  Otherwise it sends
    one lookup by the upper-cased code, which is the code itself: it
    resolves to the row when exactly one row has that code, to [null] when
    none has, to [null] when the store answers with [PGRST116], and it
    throws an error with code [DATABASE_ERROR] on any other failure of the
    store. *)
Theorem getListByCode_outcomes (code : string) (s : Store.t) :
  (Utils.isValidListCodeFormat code = false ->
   Api.getListByCode code s = (Api.Ok None, s))
  /\ (Utils.isValidListCodeFormat code = true ->
      let s' :=
        Store.receive (Store.SelectListByCode (Js.toUpperCase code)) s in
      let rows := List.filter
                    (fun l => String.eqb (GroceryList.code l)
                                         (Js.toUpperCase code))
                    (Store.lists s) in
      Js.toUpperCase code = code
      /\ (Store.next_failure s = None ->
         (forall row, rows = [row] ->
            Api.getListByCode code s = (Api.Ok (Some row), s'))
         /\ (rows = [] -> Api.getListByCode code s = (Api.Ok None, s')))
      /\ (forall e, Store.next_failure s = Some e ->
            (Store.code e = "PGRST116" ->
               Api.getListByCode code s = (Api.Ok None, s'))
            /\ (Store.code e <> "PGRST116" ->
                  Api.getListByCode code s
                  = (Api.Throw
                       (Api.mkApiError Api.DATABASE_ERROR
                          "Errore durante il recupero della lista."
                          (Some (Store.message e))), s')))).
Proof.
  unfold Api.getListByCode. split.
  - by intros ->.
  - intros Hvalid. rewrite Hvalid. simpl.
    unfold Api.bind, Api.await, Store.select_list_by_code.
    split; [by apply toUpperCase_valid_code|]. split.
    + intros Hs. rewrite request_served by done. simpl.
      split; [intros row ->|intros ->]; done.
    + intros e He. rewrite (request_failed _ _ _ e) by done. simpl.
      split; intros Hcode.
      * by rewrite Hcode.
      * by destruct (String.eqb_spec (Store.code e) "PGRST116").
Qed.

Lemma getListByCode_outcomes_witness :
  Api.getListByCode "gro-abcdefg" Sample.fresh_list
  = (Api.Ok None, Sample.fresh_list)
  /\ Api.getListByCode "GRO-ABCDEFG" Sample.fresh_list
     = (Api.Ok (Some (GroceryList.mk "L1" "GRO-ABCDEFG" "t1")),
        Store.receive (Store.SelectListByCode "GRO-ABCDEFG") Sample.fresh_list)
  /\ Api.getListByCode "GRO-ZZZ9999" Sample.fresh_list
     = (Api.Ok None,
        Store.receive (Store.SelectListByCode "GRO-ZZZ9999") Sample.fresh_list)
  /\ Api.getListByCode "GRO-ABCDEFG"
       (Store.set_outcomes [Some (Store.mkError "08006" "connection failure")]
                           Sample.fresh_list)
     = (Api.Throw (Api.mkApiError Api.DATABASE_ERROR
                     "Errore durante il recupero della lista."
                     (Some "connection failure")),
        Store.receive (Store.SelectListByCode "GRO-ABCDEFG")
          (Store.set_outcomes
             [Some (Store.mkError "08006" "connection failure")]
             Sample.fresh_list)).
Proof.
  split; [|split; [|split]].
  - apply (getListByCode_outcomes "gro-abcdefg" Sample.fresh_list).
    reflexivity.
  - destruct (getListByCode_outcomes "GRO-ABCDEFG" Sample.fresh_list)
      as [_ Hvalid].
    destruct (Hvalid eq_refl) as (_ & Hserved & _).
    destruct (Hserved eq_refl) as [Hrow _].
    apply Hrow. reflexivity.
  - destruct (getListByCode_outcomes "GRO-ZZZ9999" Sample.fresh_list)
      as [_ Hvalid].
    destruct (Hvalid eq_refl) as (_ & Hserved & _).
    destruct (Hserved eq_refl) as [_ Hnone].
    apply Hnone. reflexivity.
  - destruct (getListByCode_outcomes "GRO-ABCDEFG"
                (Store.set_outcomes
                   [Some (Store.mkError "08006" "connection failure")]
                   Sample.fresh_list)) as [_ Hvalid].
    destruct (Hvalid eq_refl) as (_ & _ & Hfailed).
    destruct (Hfailed (Store.mkError "08006" "connection failure") eq_refl)
      as [_ Hother].
    apply Hother. simpl. discriminate.
Defined.

(** * Categories *)

(** C4: on a store that serves its requests, with [c] the category that has
    the identifier.  When [c] is a default category [deleteCategory] throws
    [INVALID_INPUT] and the three tables are as before.  When [c] is a
    custom category it sends, in this order, the lookup, the reassignment
    and the delete; afterwards the items are as many as before and in the
    same order, each with the identifier, list, name, bought state and
    creation time it had; the category of an item is ["Altro"] when the
    item belongs to the list and carried the name of [c], and is unchanged
    otherwise; the row of [c] is gone. *)
Theorem deleteCategory_effect (categoryId listId : string) (s : Store.t)
    (c : Category.t) :
  Store.outcomes s = [] ->
  List.filter (fun c' => String.eqb (Category.id c') categoryId)
              (Store.categories s) = [c] ->
  (Category.is_default c = true ->
   exists e s',
     Api.deleteCategory categoryId listId s = (Api.Throw e, s')
     /\ Api.code e = Api.INVALID_INPUT
     /\ Store.lists s' = Store.lists s
     /\ Store.categories s' = Store.categories s
     /\ Store.items s' = Store.items s
     /\ Store.journal s' = Store.journal s
          ++ [Store.SelectCategoryById categoryId])
  /\ (Category.is_default c = false ->
      exists s',
        Api.deleteCategory categoryId listId s = (Api.Ok tt, s')
        /\ Store.journal s' = Store.journal s
             ++ [Store.SelectCategoryById categoryId;
                 Store.UpdateItemsCategory listId (Category.name c) "Altro";
                 Store.DeleteCategoryById categoryId]
        /\ Store.items s'
           = List.map (Store.reassign listId (Category.name c) "Altro")
                      (Store.items s)
        /\ length (Store.items s') = length (Store.items s)
        /\ (forall (n : nat) (i : Item.t), Store.items s !! n = Some i ->
              exists i',
                Store.items s' !! n = Some i'
                /\ Item.id i' = Item.id i
                /\ Item.list_id i' = Item.list_id i
                /\ Item.name i' = Item.name i
                /\ Item.bought i' = Item.bought i
                /\ Item.created_at i' = Item.created_at i
                /\ (Item.list_id i = listId
                    /\ Item.category i = Category.name c ->
                    Item.category i' = "Altro"%string)
                /\ (~ (Item.list_id i = listId
                       /\ Item.category i = Category.name c) ->
                    Item.category i' = Item.category i))
        /\ Store.categories s'
           = List.filter
               (fun c' => negb (String.eqb (Category.id c') categoryId))
               (Store.categories s)
        /\ ~ In c (Store.categories s')
        /\ Store.lists s' = Store.lists s).
Proof.
  intros Hout Hrow.
  assert (Hfetch : Store.select_category_by_id categoryId s
            = (Store.Data c,
               Store.receive (Store.SelectCategoryById categoryId) s)).
  { unfold Store.select_category_by_id.
    rewrite request_served by by apply next_failure_nil.
    simpl. by rewrite Hrow. }
  unfold Api.deleteCategory, Api.bind, Api.await. rewrite Hfetch.
  split; intros Hdef; rewrite Hdef.
  - eexists _, _. split; [reflexivity|]. simpl. done.
  - unfold Store.update_items_category, Store.delete_category_by_id.
    rewrite request_served
      by (apply next_failure_nil; simpl; by rewrite Hout).
    simpl.
    rewrite request_served
      by (apply next_failure_nil; simpl; by rewrite Hout).
    simpl. eexists. split; [reflexivity|]. simpl.
    split; [by rewrite <- !app_assoc|]. split; [done|].
    split; [by rewrite length_map|]. split; [|split; [done|split; [|done]]].
    + intros n i Hn. unfold Api.DEFAULT_REASSIGNMENT_CATEGORY.
      rewrite list_lookup_fmap, Hn. simpl. unfold Store.reassign.
      eexists. split; [reflexivity|].
      destruct (String.eqb_spec (Item.list_id i) listId);
        destruct (String.eqb_spec (Item.category i) (Category.name c));
        simpl; repeat split; try done; intros H; by destruct H.
    + intros Hin. apply filter_In in Hin as [_ Hin].
      assert (Hc : In c [c]) by by left.
      rewrite <- Hrow in Hc. apply filter_In in Hc as [_ Hc].
      by rewrite Hc in Hin.
Qed.

Lemma deleteCategory_effect_witness :
  (exists e s',
     Api.deleteCategory "c6" "L1" Sample.list_with_snacks = (Api.Throw e, s')
     /\ Api.code e = Api.INVALID_INPUT
     /\ Store.categories s' = Store.categories Sample.list_with_snacks
     /\ Store.items s' = Store.items Sample.list_with_snacks)
  /\ exists s',
       Api.deleteCategory "c100" "L1" Sample.list_with_snacks = (Api.Ok tt, s')
       /\ Store.items s'
          = [Sample.milk; Item.mk "i1" "L1" "chips" "Altro" false "t1"]
       /\ ~ In Sample.snacks (Store.categories s').
Proof.
  split.
  - destruct (deleteCategory_effect "c6" "L1" Sample.list_with_snacks
                Sample.altro eq_refl eq_refl) as [Hdefault _].
    destruct (Hdefault eq_refl) as (e & s' & Hrun & He & _ & Hc & Hi & _).
    exists e, s'. split; [exact Hrun|]. split; [exact He|].
    split; [exact Hc|exact Hi].
  - destruct (deleteCategory_effect "c100" "L1" Sample.list_with_snacks
                Sample.snacks eq_refl eq_refl) as [_ Hcustom].
    destruct (Hcustom eq_refl)
      as (s' & Hrun & _ & Hitems & _ & _ & _ & Hgone & _).
    exists s'. split; [exact Hrun|]. split; [exact Hitems|exact Hgone].
Defined.

(** The reassignment is in place before the category row goes: when the
    delete request fails, the items are already moved and the category is
    still there. *)
Lemma deleteCategory_reassigns_before_delete (categoryId listId : string)
    (s : Store.t) (c : Category.t) (e : Store.PostgrestError) :
  Store.outcomes s = [None; None; Some e] ->
  List.filter (fun c' => String.eqb (Category.id c') categoryId)
              (Store.categories s) = [c] ->
  Category.is_default c = false ->
  exists s',
    Api.deleteCategory categoryId listId s
    = (Api.Throw (Api.mkApiError Api.DATABASE_ERROR
                    "Impossibile eliminare la categoria."
                    (Some (Store.message e))), s')
    /\ Store.items s'
       = List.map (Store.reassign listId (Category.name c) "Altro")
                  (Store.items s)
    /\ Store.categories s' = Store.categories s.
Proof.
  destruct s as [lists categories items outcomes journal uuid now].
  simpl. intros -> Hrow Hdef.
  unfold Api.deleteCategory, Api.bind, Api.await,
    Store.select_category_by_id, Store.update_items_category,
    Store.delete_category_by_id, Store.request.
  simpl. rewrite Hrow. simpl. rewrite Hdef. simpl.
  eexists. split; [reflexivity|]. done.
Qed.



(** ** Patterns *)

Lemma like_plain (p s : list ascii) :
  Forall (fun c => Spec.is_pattern_char c = false) p ->
  Store.like p s = bool_decide (p = s).
Proof.
  intros Hp. revert s. induction Hp as [|c p Hc Hp IH]; intros s.
  - by destruct s.
  - unfold Spec.is_pattern_char in Hc.
    apply orb_false_iff in Hc as [Hc _].
    apply orb_false_iff in Hc as [Hc H3].
    apply orb_false_iff in Hc as [H1 H2].
    simpl. rewrite H1, H2, H3.
    destruct s as [|x s]; [done|]. rewrite IH.
    destruct (Ascii.eqb_spec x c) as [->|Hne]; simpl.
    + apply bool_decide_ext. split; congruence.
    + symmetry. apply bool_decide_eq_false. congruence.
Qed.

Lemma lower_char_pattern_char (c : ascii) :
  Spec.is_pattern_char (Js.lower_char c) = Spec.is_pattern_char c.
Proof. by destruct c as [[] [] [] [] [] [] [] []]. Qed.

Lemma star_to_percent_plain (c : ascii) :
  Spec.is_pattern_char c = false -> Store.star_to_percent c = c.
Proof. by destruct c as [[] [] [] [] [] [] [] []]. Qed.

Lemma ilike_plain (text pattern : string) :
  Spec.plain_name pattern ->
  Store.ilike text pattern
  = bool_decide (Store.lower text = Store.lower pattern).
Proof.
  unfold Spec.plain_name, Store.ilike, Store.lower. intros Hp.
  assert (Hl : Forall (fun c => Spec.is_pattern_char c = false)
                 (List.map Js.lower_char (list_ascii_of_string pattern))).
  { induction Hp as [|c p Hc Hp IH]; simpl; constructor; [|done].
    by rewrite lower_char_pattern_char. }
  assert (Hs : List.map Store.star_to_percent
                 (List.map Js.lower_char (list_ascii_of_string pattern))
               = List.map Js.lower_char (list_ascii_of_string pattern)).
  { induction Hl as [|c p Hc Hl IH]; simpl; [done|].
    by rewrite IH, star_to_percent_plain. }
  rewrite Hs, like_plain by done.
  apply bool_decide_ext. split; congruence.
Qed.

(** ** The highest display order *)

Lemma max_fold_swap (x y : Z) (l : list Z) :
  Z.max x (fold_right Z.max y l) = Z.max y (fold_right Z.max x l).
Proof. induction l as [|z l IH]; simpl; lia. Qed.

Lemma head_insert_desc (x : Z) (l : list Z) :
  head (Store.insert_desc x l)
  = Some (match head l with Some y => Z.max x y | None => x end).
Proof.
  destruct l as [|y l]; simpl; [done|].
  destruct (Z.ltb_spec x y); simpl; f_equal; lia.
Qed.

Lemma head_order_desc (l : list Z) :
  head (Store.order_desc l)
  = match l with [] => None | x :: l' => Some (fold_right Z.max x l') end.
Proof.
  induction l as [|x l IH]; simpl; [done|].
  rewrite head_insert_desc. fold (Store.order_desc l). rewrite IH.
  destruct l as [|y l]; [done|]. f_equal. simpl. apply max_fold_swap.
Qed.

Lemma take_1_head {A} (l : list A) :
  take 1 l = match head l with Some x => [x] | None => [] end.
Proof. by destruct l. Qed.

(** [createCategory] on a store that serves every request. *)
Lemma createCategory_served (listId name : string) (s : Store.t) :
  Store.outcomes s = [] ->
  Js.trim name <> EmptyString ->
  let matches :=
    List.filter (fun c => String.eqb (Category.list_id c) listId
                          && Store.ilike (Category.name c) (Js.trim name))
                (Store.categories s) in
  (matches <> [] ->
   exists e s', Api.createCategory listId name s = (Api.Throw e, s')
                /\ Api.code e = Api.DUPLICATE_CATEGORY
                /\ Store.categories s' = Store.categories s)
  /\ (matches = [] ->
      Store.name_in_use listId (Js.trim name) (Store.categories s) = false ->
      exists c s', Api.createCategory listId name s = (Api.Ok c, s')
        /\ Category.name c = Js.trim name
        /\ Category.list_id c = listId
        /\ Category.is_default c = false
        /\ Category.display_order c
           = match Spec.top_display_order s listId with
             | Some top => (top + 1)%Z
             | None => 100%Z
             end
        /\ Store.categories s' = Store.categories s ++ [c]).
Proof.
  intros Hout Hname matches. unfold Api.createCategory.
  assert (Hvalid : Utils.isValidCategoryName name = true).
  { unfold Utils.isValidCategoryName. apply Nat.ltb_lt.
    destruct (Js.trim name); simpl; [done|lia]. }
  rewrite Hvalid. simpl.
  unfold Api.bind, Api.categoryNameExists, Api.bind, Api.await,
    Store.select_categories_ilike.
  rewrite request_served by by apply next_failure_nil.
  simpl. fold matches. rewrite length_map.
  split; intros Hm.
  - destruct matches as [|m ms]; [done|]. simpl.
    eexists _, _. split; [reflexivity|]. done.
  - intros Hfree. rewrite Hm. simpl. unfold Store.select_top_display_order.
    rewrite request_served
      by (apply next_failure_nil; simpl; by rewrite Hout).
    simpl. unfold Store.insert_category.
    rewrite request_served
      by (apply next_failure_nil; simpl; by rewrite Hout).
    simpl. rewrite Hfree. eexists _, _. split; [reflexivity|]. simpl.
    repeat split; try done.
    unfold Spec.top_display_order.
    rewrite take_1_head, head_order_desc.
    by destruct (List.map Category.display_order _).
Qed.

Lemma filter_ext_eq {A} (p q : A -> bool) (l : list A) :
  (forall x, p x = q x) -> List.filter p l = List.filter q l.
Proof. intros H. by apply filter_ext. Qed.


(** For a name without pattern characters the advisory check is the
    comparison of names up to letter case. *)
Lemma createCategory_plain_name (listId name : string) (s : Store.t) :
  Store.outcomes s = [] ->
  Js.trim name <> EmptyString ->
  Spec.plain_name (Js.trim name) ->
  (Spec.name_taken s listId name = true ->
   exists e s', Api.createCategory listId name s = (Api.Throw e, s')
                /\ Api.code e = Api.DUPLICATE_CATEGORY)
  /\ (Spec.name_taken s listId name = false ->
      exists c s', Api.createCategory listId name s = (Api.Ok c, s')
                   /\ Category.name c = Js.trim name
                   /\ Category.is_default c = false).
Proof.
  intros Hout Hname Hplain.
  destruct (createCategory_served listId name s Hout Hname) as [Hdup Hnew].
  assert (Hsame : forall c,
            String.eqb (Category.list_id c) listId
            && Store.ilike (Category.name c) (Js.trim name)
            = String.eqb (Category.list_id c) listId
              && Spec.same_name (Category.name c) name).
  { intros c. by rewrite ilike_plain. }
  rewrite (filter_ext_eq _ _ _ Hsame) in Hdup, Hnew.
  unfold Spec.name_taken. split; intros H.
  - destruct Hdup as (e & s' & Hrun & He & _).
    + intros E. apply filter_nil_existsb in E. congruence.
    + by exists e, s'.
  - destruct Hnew as (c & s' & Hrun & Hn & _ & Hd & _).
    + by apply filter_nil_existsb.
    + unfold Store.name_in_use. apply not_true_iff_false. intros E.
      apply existsb_exists in E as (c & Hc & E).
      apply andb_true_iff in E as [El En]. apply String.eqb_eq in En.
      apply not_true_iff_false in H. apply H. apply existsb_exists.
      exists c. split; [done|]. rewrite El. simpl.
      unfold Spec.same_name. apply bool_decide_eq_true. by rewrite En.
    + by exists c, s'.
Qed.

(** C2, on the code: in a list that holds only the six default categories
    with the orders 1 to 6, the first custom category gets [display_order]
    7, not 100.  The lookup for the highest order
    ranges over all categories of the list, defaults included (see
    [createCategory_served]). *)
Theorem createCategory_first_custom_order :
  List.map (fun c => (Category.is_default c, Category.display_order c))
           (Store.categories Sample.fresh_list)
  = [(true, 1%Z); (true, 2%Z); (true, 3%Z); (true, 4%Z); (true, 5%Z);
     (true, 6%Z)]
  /\ exists c s',
       Api.createCategory "L1" "Snacks" Sample.fresh_list = (Api.Ok c, s')
       /\ Category.is_default c = false
       /\ Category.display_order c = 7%Z.
Proof.
  split; [vm_compute; reflexivity|].
  eexists _, _. split; [vm_compute; reflexivity|]. done.
Qed.

(** C7, on the code: in a list with the default categories, where no
    category is named ["Alt%"] in any letter case, [createCategory] rejects
    the name ["Alt%"] as a duplicate: the advisory check reads the name as
    a pattern, and the pattern matches ["Altro"].  For names without pattern
    characters the check is the comparison up to letter case (see
    [createCategory_plain_name]). *)
Theorem createCategory_rejects_unused_pattern_name :
  Spec.name_taken Sample.fresh_list "L1" "Alt%" = false
  /\ exists e s',
       Api.createCategory "L1" "Alt%" Sample.fresh_list = (Api.Throw e, s')
       /\ Api.code e = Api.DUPLICATE_CATEGORY.
Proof.
  split; [vm_compute; reflexivity|].
  eexists _, _. split; [vm_compute; reflexivity|]. done.
Qed.

(** The other way round: a name with a backslash is not recognised as its
    own duplicate by the advisory check, and the insert then fails on the
    constraint of the store with [DATABASE_ERROR]. *)
Lemma createCategory_misses_duplicate_with_backslash :
  Spec.name_taken Sample.list_with_backslash "L1" "Cibo\Bevande" = true
  /\ exists e s',
       Api.createCategory "L1" "Cibo\Bevande" Sample.list_with_backslash
       = (Api.Throw e, s')
       /\ Api.code e = Api.DATABASE_ERROR.
Proof.
  split; [vm_compute; reflexivity|].
  eexists _, _. split; [vm_compute; reflexivity|]. done.
Qed.


Lemma trim_nonempty_valid (name : string) :
  Js.trim name <> EmptyString -> Utils.isValidItemName name = true.
Proof.
  intros H. apply not_false_iff_true. intros E.
  by apply isValidItemName_trim in E.
Qed.

(** [addItem] with a valid name and category, on a store that serves the
    insert. *)
Lemma addItem_served (listId name category : string) (s : Store.t) :
  Js.trim name <> EmptyString -> Js.trim category <> EmptyString ->
  Store.next_failure s = None ->
  let q := Store.InsertItem listId (Js.trim name) category false in
  let s1 := Store.receive q s in
  let n := length (Store.journal s1) in
  let item := Item.mk (Store.uuid s1 n 0) listId (Js.trim name) category false
                      (Store.now s1 n) in
  Api.addItem listId name category s
  = (Api.Ok item, Store.set_items (Store.items s1 ++ [item]) s1).
Proof.
  intros Hn Hc Hserved. unfold Api.addItem.
  rewrite (trim_nonempty_valid name Hn). simpl.
  destruct (String.eqb_spec category EmptyString) as [->|Hce]; [done|].
  destruct (Nat.eqb_spec (String.length (Js.trim category)) 0) as [E|_];
    [by apply length_zero_empty in E|].
  simpl. unfold Api.bind, Api.await, Store.insert_item.
  by rewrite request_served.
Qed.




(** C3, on the code: while the channel is open, a category-deleted event
    removes the categories whose identifier the old record of the event
    holds, and keeps the number and the order of the items; an item keeps
    its identifier, list, name, bought state and creation time, and its
    category becomes ["Altro"] exactly when the old record holds a name and
    the item carried that name.  So when the old record holds the primary
    key only, as the tables of the schema deliver it, no item is rewritten:
    the items of the deleted category keep its name.  An item-inserted
    event leaves the page unchanged when an item with the identifier is
    present, and appends the item otherwise. *)
Theorem realtime_merge (p : Realtime.Page) :
  Realtime.channelRef p <> None ->
  (forall (newRecord : option Category.t) (oldCategory : PartialCategory.t),
     let p' := Realtime.notify
                 (Realtime.CategoryChange
                    (Realtime.mkPayload Realtime.DELETE newRecord
                                        (Some oldCategory))) p in
     Realtime.categories (Realtime.view p')
       = List.filter
           (fun c => negb (Realtime.equals (Category.id c)
                                           (PartialCategory.id oldCategory)))
           (Realtime.categories (Realtime.view p))
     /\ (forall c, In c (Realtime.categories (Realtime.view p')) ->
           PartialCategory.id oldCategory <> Some (Category.id c))
     /\ length (Realtime.items (Realtime.view p'))
        = length (Realtime.items (Realtime.view p))
     /\ (forall (n : nat) (i : Item.t),
           Realtime.items (Realtime.view p) !! n = Some i ->
           exists i',
             Realtime.items (Realtime.view p') !! n = Some i'
             /\ Item.id i' = Item.id i
             /\ Item.list_id i' = Item.list_id i
             /\ Item.name i' = Item.name i
             /\ Item.bought i' = Item.bought i
             /\ Item.created_at i' = Item.created_at i
             /\ (PartialCategory.name oldCategory = Some (Item.category i) ->
                   Item.category i' = "Altro"%string)
             /\ (PartialCategory.name oldCategory <> Some (Item.category i) ->
                   Item.category i' = Item.category i))
     /\ (PartialCategory.name oldCategory = None ->
           Realtime.items (Realtime.view p')
           = Realtime.items (Realtime.view p)))
  /\ (forall (item : Item.t) (oldRecord : option PartialItem.t),
        let p' := Realtime.notify
                    (Realtime.ItemChange
                       (Realtime.mkPayload Realtime.INSERT (Some item)
                                           oldRecord)) p in
        ((exists i, In i (Realtime.items (Realtime.view p))
                    /\ Item.id i = Item.id item) -> p' = p)
        /\ ((forall i, In i (Realtime.items (Realtime.view p)) ->
                       Item.id i <> Item.id item) ->
            Realtime.items (Realtime.view p')
              = Realtime.items (Realtime.view p) ++ [item]
            /\ Realtime.categories (Realtime.view p')
               = Realtime.categories (Realtime.view p))).
Proof.
  intros Hsub. destruct p as [[channel|] [items categories]]; [|done].
  split.
  - intros newRecord oldCategory. simpl. split; [done|].
    split; [|split; [|split]].
    + intros c Hc E. apply filter_In in Hc as [_ Hc].
      rewrite E in Hc. simpl in Hc. by rewrite String.eqb_refl in Hc.
    + by rewrite length_map.
    + intros n i Hn. rewrite list_lookup_fmap, Hn. simpl.
      eexists. split; [reflexivity|].
      destruct (PartialCategory.name oldCategory) as [name|]; simpl.
      * destruct (String.eqb_spec (Item.category i) name) as [E|E]; simpl;
          repeat split; try done; intros H; congruence.
      * repeat split; done.
    + intros Hkey. rewrite Hkey. simpl. apply map_id.
  - intros item oldRecord. cbn. unfold Realtime.setItems. simpl.
    destruct (existsb (fun i => String.eqb (Item.id i) (Item.id item)) items)
      eqn:E.
    + split; [done|]. intros Hfresh. exfalso.
      apply existsb_exists in E as (i & Hi & E). apply String.eqb_eq in E.
      by apply (Hfresh i).
    + split; [|done]. intros (i & Hi & Hid). exfalso.
      apply not_true_iff_false in E. apply E. apply existsb_exists.
      exists i. split; [done|]. by apply String.eqb_eq.
Qed.

Lemma realtime_merge_witness :
  Realtime.view
    (Realtime.notify
       (Realtime.CategoryChange
          (Realtime.mkPayload Realtime.DELETE None
             (Some (PartialCategory.key_only "c100"))))
       Sample.page)
  = Realtime.mkView [Sample.milk; Sample.chips] Sample.default_rows
  /\ Item.category Sample.chips = Category.name Sample.snacks
  /\ (exists i',
        Realtime.items
          (Realtime.view
             (Realtime.notify
                (Realtime.CategoryChange
                   (Realtime.mkPayload Realtime.DELETE None
                      (Some (PartialCategory.of_row Sample.snacks))))
                Sample.page)) !! 1 = Some i'
        /\ Item.name i' = "chips"%string
        /\ Item.category i' = "Altro"%string)
  /\ Realtime.notify
       (Realtime.ItemChange
          (Realtime.mkPayload Realtime.INSERT (Some Sample.milk) None))
       Sample.page
     = Sample.page.
Proof.
  assert (Hsub : Realtime.channelRef Sample.page <> None) by discriminate.
  destruct (realtime_merge Sample.page Hsub) as [Hdelete Hinsert].
  split; [|split; [reflexivity|split]].
  - destruct (Hdelete None (PartialCategory.key_only "c100"))
      as (Hcats & _ & _ & _ & Hitems).
    specialize (Hitems eq_refl). cbv zeta in Hcats, Hitems.
    destruct (Realtime.view (Realtime.notify _ Sample.page))
      as [items categories].
    cbn [Realtime.items Realtime.categories] in Hcats, Hitems.
    subst items categories. reflexivity.
  - destruct (Hdelete None (PartialCategory.of_row Sample.snacks))
      as (_ & _ & _ & Hrows & _).
    destruct (Hrows 1 Sample.chips eq_refl)
      as (i' & Hi' & _ & _ & Hname & _ & _ & Haltro & _).
    exists i'. split; [exact Hi'|]. split; [exact Hname|].
    apply Haltro. reflexivity.
  - apply (Hinsert Sample.milk None). exists Sample.milk.
    split; [left; reflexivity|reflexivity].
Defined.


(** * JSON *)

Lemma value_ind (P : Json.value -> Prop) :
  P Json.Null ->
  (forall b, P (Json.Bool b)) ->
  (forall s, P (Json.Str s)) ->
  (forall l, Forall P l -> P (Json.Arr l)) ->
  (forall l, Forall (fun kv => P (snd kv)) l -> P (Json.Obj l)) ->
  forall v, P v.
Proof.
  intros HNull HBool HStr HArr HObj. fix IH 1. intros [|b|s|l|l].
  - exact HNull.
  - apply HBool.
  - apply HStr.
  - apply HArr. induction l as [|v l IHl]; constructor; [apply IH|exact IHl].
  - apply HObj. induction l as [|[k v] l IHl]; constructor;
      [apply IH|exact IHl].
Qed.

Lemma parse_string_quote_char (c : ascii) (r : list ascii) :
  Json.parse_string (Json.quote_char c r) = Json.push c (Json.parse_string r).
Proof. destruct c as [[] [] [] [] [] [] [] []]; reflexivity. Qed.

Lemma parse_string_quote_chars (s : string) (k : list ascii) :
  Json.parse_string (Json.quote_chars s (Json.quotation_mark :: k))
  = Some (s, k).
Proof.
  induction s as [|c s IH]; simpl; [done|].
  by rewrite parse_string_quote_char, IH.
Qed.


Lemma write_begins_value (v : Json.value) (k : list ascii) :
  Spec.begins_value (Json.write v k).
Proof.
  destruct v as [|[]|s|l|l]; simpl; unfold Json.quote; by eexists _, _.
Qed.

Lemma parse_value_quote (fuel : nat) (s : string) (k : list ascii) :
  Json.parse_value (S fuel) (Json.quote s k) = Some (Json.Str s, k).
Proof.
  unfold Json.quote. simpl. by rewrite parse_string_quote_chars.
Qed.

Lemma parse_value_array (fuel : nat) (text : list ascii) :
  Spec.begins_value text ->
  Json.parse_value (S fuel) ("["%char :: text)
  = '(l, r) ← Json.parse_elements fuel text; Some (Json.Arr l, r).
Proof.
  intros (c & r & -> & Hws & Hclose & _).
  destruct c as [[] [] [] [] [] [] [] []]; try discriminate; reflexivity.
Qed.

Lemma parse_elements_last (fuel : nat) (v : Json.value)
    (text k : list ascii) :
  Json.parse_value fuel text = Some (v, "]"%char :: k) ->
  Json.parse_elements (S fuel) text = Some ([v], k).
Proof. intros H. simpl. by rewrite H. Qed.

Lemma parse_elements_more (fuel : nat) (v : Json.value)
    (text rest : list ascii) :
  Json.parse_value fuel text = Some (v, ","%char :: rest) ->
  Json.parse_elements (S fuel) text
  = '(l, r) ← Json.parse_elements fuel rest; Some (v :: l, r).
Proof. intros H. simpl. by rewrite H. Qed.

Lemma parse_elements_write (k : list ascii) (l : list Json.value) :
  Forall (fun v => forall k fuel, Json.depth v <= fuel ->
            Json.parse_value fuel (Json.write v k) = Some (v, k)) l ->
  l <> [] ->
  forall fuel, Json.elements_depth Json.depth l <= fuel ->
    Json.parse_elements fuel
      (Json.write_elements Json.write ("]"%char :: k) l)
    = Some (l, k).
Proof.
  induction l as [|v l IHl]; intros Hall Hne fuel Hfuel; [done|].
  apply Forall_cons in Hall as [Hv Hall].
  destruct fuel as [|fuel]; [simpl in Hfuel; lia|].
  simpl in Hfuel. apply Nat.succ_le_mono in Hfuel.
  destruct l as [|v' l'].
  - apply parse_elements_last. apply Hv. lia.
  - change (Json.write_elements Json.write ("]"%char :: k) (v :: v' :: l'))
      with (Json.write v (","%char ::
              Json.write_elements Json.write ("]"%char :: k) (v' :: l'))).
    rewrite (parse_elements_more fuel v _
               (Json.write_elements Json.write ("]"%char :: k) (v' :: l')))
      by (apply Hv; lia).
    rewrite IHl; [done|done|done|lia].
Qed.

Lemma parse_value_object (fuel : nat) (r : list ascii) :
  Json.parse_value (S fuel) ("{"%char :: Json.quotation_mark :: r)
  = '(l, r') ← Json.parse_members fuel (Json.quotation_mark :: r);
    Some (Json.Obj l, r').
Proof. reflexivity. Qed.

Lemma parse_members_last (fuel : nat) (key : string) (v : Json.value)
    (text k : list ascii) :
  Json.parse_value fuel text = Some (v, "}"%char :: k) ->
  Json.parse_members (S fuel) (Json.quote key (":"%char :: text))
  = Some ([(key, v)], k).
Proof.
  intros H. unfold Json.quote. cbn [Json.parse_members Json.skip_ws].
  change (Json.is_ws Json.quotation_mark) with false. cbv iota.
  change (Ascii.eqb Json.quotation_mark Json.quotation_mark) with true.
  cbv iota. rewrite parse_string_quote_chars. simpl. by rewrite H.
Qed.

Lemma parse_members_more (fuel : nat) (key : string) (v : Json.value)
    (text rest : list ascii) :
  Json.parse_value fuel text = Some (v, ","%char :: rest) ->
  Json.parse_members (S fuel) (Json.quote key (":"%char :: text))
  = '(l, r) ← Json.parse_members fuel rest; Some ((key, v) :: l, r).
Proof.
  intros H. unfold Json.quote. cbn [Json.parse_members Json.skip_ws].
  change (Json.is_ws Json.quotation_mark) with false. cbv iota.
  change (Ascii.eqb Json.quotation_mark Json.quotation_mark) with true.
  cbv iota. rewrite parse_string_quote_chars. simpl. by rewrite H.
Qed.

Lemma parse_members_write (k : list ascii) (l : list (string * Json.value)) :
  Forall (fun kv => forall k fuel, Json.depth (snd kv) <= fuel ->
            Json.parse_value fuel (Json.write (snd kv) k)
            = Some (snd kv, k)) l ->
  l <> [] ->
  forall fuel, Json.members_depth Json.depth l <= fuel ->
    Json.parse_members fuel
      (Json.write_members Json.write ("}"%char :: k) l)
    = Some (l, k).
Proof.
  induction l as [|[key v] l IHl]; intros Hall Hne fuel Hfuel; [done|].
  apply Forall_cons in Hall as [Hv Hall]. simpl in Hv.
  destruct fuel as [|fuel]; [simpl in Hfuel; lia|].
  simpl in Hfuel. apply Nat.succ_le_mono in Hfuel.
  destruct l as [|kv' l'].
  - apply parse_members_last. apply Hv. lia.
  - change (Json.write_members Json.write ("}"%char :: k)
              ((key, v) :: kv' :: l'))
      with (Json.quote key (":"%char :: Json.write v (","%char ::
              Json.write_members Json.write ("}"%char :: k) (kv' :: l')))).
    rewrite (parse_members_more fuel key v _
               (Json.write_members Json.write ("}"%char :: k) (kv' :: l')))
      by (apply Hv; lia).
    rewrite IHl; [done|done|done|lia].
Qed.

Lemma parse_write (v : Json.value) :
  forall (k : list ascii) (fuel : nat),
    Json.depth v <= fuel ->
    Json.parse_value fuel (Json.write v k) = Some (v, k).
Proof.
  induction v as [|b|s|l IH|l IH] using value_ind; intros k fuel Hfuel;
    (destruct fuel as [|fuel]; [simpl in Hfuel; lia|]).
  - reflexivity.
  - by destruct b.
  - apply parse_value_quote.
  - simpl in Hfuel. apply Nat.succ_le_mono in Hfuel.
    change (Json.write (Json.Arr l) k)
      with ("["%char :: Json.write_elements Json.write ("]"%char :: k) l).
    destruct l as [|v l]; [reflexivity|].
    rewrite parse_value_array by apply write_begins_value.
    rewrite parse_elements_write; [done|done|done|lia].
  - simpl in Hfuel. apply Nat.succ_le_mono in Hfuel.
    change (Json.write (Json.Obj l) k)
      with ("{"%char :: Json.write_members Json.write ("}"%char :: k) l).
    destruct l as [|[key v] l]; [reflexivity|].
    change (Json.write_members Json.write ("}"%char :: k) ((key, v) :: l))
      with (Json.quotation_mark ::
              Json.quote_chars key (Json.quotation_mark :: ":"%char ::
                Json.write v match l with
                             | [] => "}"%char :: k
                             | _ :: _ => ","%char ::
                                 Json.write_members Json.write
                                   ("}"%char :: k) l
                             end)).
    rewrite parse_value_object.
    change (Json.quotation_mark ::
              Json.quote_chars key (Json.quotation_mark :: ":"%char ::
                Json.write v match l with
                             | [] => "}"%char :: k
                             | _ :: _ => ","%char ::
                                 Json.write_members Json.write
                                   ("}"%char :: k) l
                             end))
      with (Json.write_members Json.write ("}"%char :: k) ((key, v) :: l)).
    rewrite parse_members_write; [done|done|done|lia].
Qed.

(** The text of a value is at least as long as the fuel it takes. *)
Lemma length_quote_chars (s : string) (k : list ascii) :
  length k <= length (Json.quote_chars s k).
Proof.
  induction s as [|c s IH]; simpl; [done|].
  unfold Json.quote_char.
  repeat (match goal with |- context [if ?b then _ else _] => destruct b end);
    simpl; lia.
Qed.

Lemma depth_le_length (v : Json.value) :
  forall k, Json.depth v + length k <= length (Json.write v k).
Proof.
  induction v as [|b|s|l IH|l IH] using value_ind; intros k.
  - simpl. lia.
  - destruct b; simpl; lia.
  - simpl. pose proof (length_quote_chars s (Json.quotation_mark :: k)).
    simpl in *. lia.
  - change (Json.write (Json.Arr l) k)
      with ("["%char :: Json.write_elements Json.write ("]"%char :: k) l).
    change (Json.depth (Json.Arr l))
      with (S (Json.elements_depth Json.depth l)).
    assert (H : Json.elements_depth Json.depth l + length k
                <= length (Json.write_elements Json.write ("]"%char :: k) l)).
    { induction IH as [|v l Hv _ IHl]; [simpl; lia|].
      change (Json.elements_depth Json.depth (v :: l))
        with (S (Nat.max (Json.depth v) (Json.elements_depth Json.depth l))).
      destruct l as [|v' l'].
      - simpl. specialize (Hv ("]"%char :: k)). simpl in Hv. lia.
      - change (Json.write_elements Json.write ("]"%char :: k) (v :: v' :: l'))
          with (Json.write v (","%char ::
                  Json.write_elements Json.write ("]"%char :: k) (v' :: l'))).
        set (rest := Json.write_elements Json.write ("]"%char :: k)
                       (v' :: l')) in *.
        specialize (Hv (","%char :: rest)). simpl length in Hv. lia. }
    simpl length. lia.
  - change (Json.write (Json.Obj l) k)
      with ("{"%char :: Json.write_members Json.write ("}"%char :: k) l).
    change (Json.depth (Json.Obj l))
      with (S (Json.members_depth Json.depth l)).
    assert (H : Json.members_depth Json.depth l + length k
                <= length (Json.write_members Json.write ("}"%char :: k) l)).
    { induction IH as [|[key v] l Hv _ IHl]; [simpl; lia|].
      simpl in Hv.
      change (Json.members_depth Json.depth ((key, v) :: l))
        with (S (Nat.max (Json.depth v) (Json.members_depth Json.depth l))).
      destruct l as [|kv' l'].
      - simpl Json.write_members. unfold Json.quote.
        pose proof (length_quote_chars key
          (Json.quotation_mark :: ":"%char :: Json.write v ("}"%char :: k))).
        specialize (Hv ("}"%char :: k)). simpl length in *. simpl. lia.
      - change (Json.write_members Json.write ("}"%char :: k)
                  ((key, v) :: kv' :: l'))
          with (Json.quote key (":"%char :: Json.write v (","%char ::
                  Json.write_members Json.write ("}"%char :: k) (kv' :: l')))).
        unfold Json.quote.
        set (rest := Json.write_members Json.write ("}"%char :: k)
                       (kv' :: l')) in *.
        pose proof (length_quote_chars key
          (Json.quotation_mark :: ":"%char :: Json.write v (","%char :: rest))).
        specialize (Hv (","%char :: rest)).
        simpl length in *. lia. }
    simpl length. lia.
Qed.

(** [JSON.parse(JSON.stringify(v))] is [v]. *)
Lemma parse_stringify (v : Json.value) :
  Json.parse (Json.stringify v) = Some v.
Proof.
  unfold Json.parse, Json.stringify, Json.chars.
  rewrite list_ascii_of_string_of_list_ascii.
  rewrite parse_write; [done|].
  pose proof (depth_le_length v []). lia.
Qed.

(** * Serialisation *)

Lemma item_of_value_serialized (item : Item.t) :
  Serialization.item_of_value (Serialization.serialized item) = Some item.
Proof. by destruct item. Qed.

(** C9: [deserializeItem (serializeItem item)] is [item], and
    [deserializeItems (serializeItems items)] is [items], for all items
    and lists of items. *)
Theorem serialize_round_trip :
  (forall item : Item.t,
     Serialization.deserializeItem (Serialization.serializeItem item)
     = Some item)
  /\ (forall items : list Item.t,
        Serialization.deserializeItems (Serialization.serializeItems items)
        = Some items).
Proof.
  split.
  - intros item.
    unfold Serialization.deserializeItem, Serialization.serializeItem.
    rewrite parse_stringify. simpl. apply item_of_value_serialized.
  - intros items.
    unfold Serialization.deserializeItems, Serialization.serializeItems.
    rewrite parse_stringify. simpl.
    induction items as [|item items IH]; [done|].
    change (List.map Serialization.serialized (item :: items))
      with (Serialization.serialized item
            :: List.map Serialization.serialized items).
    cbn [mapM]. rewrite item_of_value_serialized. simpl. by rewrite IH.
Qed.

(* ===================================================================== *)
(** * Further properties of the operations and of the page *)
(* ===================================================================== *)

(** * White space around names *)

Lemma trimStart_white (s : string) :
  forallb Js.is_white_space (list_ascii_of_string s) = true ->
  Js.trimStart s = EmptyString.
Proof.
  induction s as [|c s IH]; simpl; [done|].
  intros H. apply andb_true_iff in H as [-> H]. by apply IH.
Qed.

Lemma trimStart_ink (s : string) :
  forallb Js.is_white_space (list_ascii_of_string s) = false ->
  exists c r, Js.trimStart s = String c r /\ Js.is_white_space c = false
              /\ In c (list_ascii_of_string s).
Proof.
  induction s as [|c s IH]; simpl; [done|].
  destruct (Js.is_white_space c) eqn:E; simpl.
  - intros H. destruct (IH H) as (d & r & Hd & Hw & Hin).
    exists d, r. by repeat split; [| |right].
  - intros _. exists c, s. by repeat split; [|left].
Qed.

Lemma trimEnd_ink (c : ascii) (s : string) :
  Js.is_white_space c = false ->
  exists r, Js.trimEnd (String c s) = String c r.
Proof.
  intros E. simpl. rewrite E. destruct (Js.trimEnd s); by eexists.
Qed.

Lemma trimEnd_idem (s : string) : Js.trimEnd (Js.trimEnd s) = Js.trimEnd s.
Proof.
  induction s as [|c s IH]; [done|].
  simpl. destruct (Js.trimEnd s) as [|d t] eqn:E.
  - destruct (Js.is_white_space c) eqn:Ec; [done|]. simpl. by rewrite Ec.
  - change (Js.trimEnd (String c (String d t)))
      with (match Js.trimEnd (String d t) with
            | EmptyString => if Js.is_white_space c then EmptyString
                             else String c EmptyString
            | t' => String c t'
            end).
    by rewrite IH.
Qed.

Lemma trimStart_head (c : ascii) (s : string) :
  Js.is_white_space c = false -> Js.trimStart (String c s) = String c s.
Proof. intros E. simpl. by rewrite E. Qed.

Lemma trim_empty_iff (s : string) :
  Js.trim s = EmptyString
  <-> forallb Js.is_white_space (list_ascii_of_string s) = true.
Proof.
  unfold Js.trim. split.
  - intros H.
    destruct (forallb Js.is_white_space (list_ascii_of_string s)) eqn:E;
      [done|].
    destruct (trimStart_ink s E) as (c & r & Hs & Hc & _).
    rewrite Hs in H. destruct (trimEnd_ink c r Hc) as (t & Ht). congruence.
  - intros H. by rewrite trimStart_white.
Qed.

Lemma trim_idem (s : string) : Js.trim (Js.trim s) = Js.trim s.
Proof.
  unfold Js.trim.
  destruct (forallb Js.is_white_space (list_ascii_of_string s)) eqn:E.
  - by rewrite (trimStart_white s E).
  - destruct (trimStart_ink s E) as (c & r & -> & Hc & _).
    destruct (trimEnd_ink c r Hc) as (t & Ht).
    rewrite Ht, (trimStart_head c t Hc), <- Ht. apply trimEnd_idem.
Qed.

Lemma trimEnd_no_white (s : string) :
  forallb (fun c => negb (Js.is_white_space c)) (list_ascii_of_string s) = true ->
  Js.trimEnd s = s.
Proof.
  induction s as [|c s IH]; simpl; [done|].
  intros H. apply andb_true_iff in H as [Hc H].
  apply negb_true_iff in Hc. rewrite (IH H), Hc. by destruct s.
Qed.

Lemma trim_no_white (s : string) :
  forallb (fun c => negb (Js.is_white_space c)) (list_ascii_of_string s) = true ->
  Js.trim s = s.
Proof.
  intros H. unfold Js.trim.
  assert (Js.trimStart s = s) as ->; [|by apply trimEnd_no_white].
  destruct s as [|c s]; [done|]. simpl in *.
  apply andb_true_iff in H as [Hc _]. apply negb_true_iff in Hc.
  by rewrite Hc.
Qed.

Lemma isValidName_ink (name : string) :
  (0 <? String.length (Js.trim name)) = true
  <-> exists c, In c (list_ascii_of_string name)
                /\ Js.is_white_space c = false.
Proof.
  rewrite Nat.ltb_lt. split.
  - intros H.
    destruct (forallb Js.is_white_space (list_ascii_of_string name)) eqn:E.
    + apply trim_empty_iff in E. rewrite E in H. simpl in H. lia.
    + destruct (trimStart_ink name E) as (c & r & _ & Hc & Hin). by exists c.
  - intros (c & Hin & Hc).
    destruct (Js.trim name) eqn:E; [|simpl; lia].
    apply trim_empty_iff in E. rewrite forallb_forall in E.
    rewrite (E c Hin) in Hc. done.
Qed.

(** X2: [isValidItemName] and [isValidCategoryName] accept a name exactly
    when at least one of its code units is not white space. *)
Theorem valid_names_have_ink (name : string) :
  (Utils.isValidItemName name = true
   <-> exists c, In c (list_ascii_of_string name)
                 /\ Js.is_white_space c = false)
  /\ (Utils.isValidCategoryName name = true
      <-> exists c, In c (list_ascii_of_string name)
                    /\ Js.is_white_space c = false).
Proof. split; apply isValidName_ink. Qed.

Lemma is_code_char_ink (c : ascii) :
  Utils.is_code_char c = true -> negb (Js.is_white_space c) = true.
Proof.
  unfold Utils.is_code_char, Js.is_upper, Js.is_digit, Js.is_white_space.
  intros H. apply negb_true_iff.
  apply orb_true_iff in H as [H|H]; apply andb_true_iff in H as [H1 H2];
    apply Nat.leb_le in H1, H2;
    repeat (apply orb_false_iff; split);
    try apply andb_false_iff; try apply Nat.eqb_neq; try lia;
    right; apply Nat.leb_gt; lia.
Qed.

Lemma all_code_chars_ink (s : string) :
  Utils.all_code_chars s = true ->
  forallb (fun c => negb (Js.is_white_space c)) (list_ascii_of_string s) = true.
Proof.
  induction s as [|c s IH]; simpl; [done|].
  intros H. apply andb_true_iff in H as [Hc H].
  by rewrite (is_code_char_ink c Hc), IH.
Qed.

Lemma valid_code_shape (code : string) :
  Utils.isValidListCodeFormat code = true ->
  exists suffix,
    code = String "G" (String "R" (String "O" (String "-" suffix)))
                 /\ String.length suffix = 7
                 /\ Utils.all_code_chars suffix = true.
Proof.
  unfold Utils.isValidListCodeFormat. intros H.
  destruct code as [|[[] [] [] [] [] [] [] []] code]; try done.
  destruct code as [|[[] [] [] [] [] [] [] []] code]; try done.
  destruct code as [|[[] [] [] [] [] [] [] []] code]; try done.
  destruct code as [|[[] [] [] [] [] [] [] []] suffix]; try done.
  apply andb_true_iff in H as [Hl H]. apply Nat.eqb_eq in Hl.
  by exists suffix.
Qed.

Lemma trim_valid_code (code : string) :
  Utils.isValidListCodeFormat code = true -> Js.trim code = code.
Proof.
  intros H. destruct (valid_code_shape code H) as (suffix & -> & _ & Hs).
  apply trim_no_white. simpl. by apply all_code_chars_ink.
Qed.

Lemma generateListCode_length (random : nat -> nat) :
  String.length (Utils.generateListCode random) = 11.
Proof.
  destruct (valid_code_shape _ (generateListCode_valid random))
    as (suffix & -> & Hl & _).
  simpl. by rewrite Hl.
Qed.

(** X1: every code [generateListCode] produces, whatever the random
    source yields, passes [isValidListCodeFormat] and has eleven code
    units; the trimming and upper-casing the join form applies to its input
    leave such a code as it is. *)
Theorem generated_code_canonical (random : nat -> nat) :
  let code := Utils.generateListCode random in
  Utils.isValidListCodeFormat code = true
  /\ String.length code = 11
  /\ Js.toUpperCase (Js.trim code) = code.
Proof.
  intros code. pose proof (generateListCode_valid random) as H. fold code in H.
  split; [done|]. split.
  - destruct (valid_code_shape code H) as (suffix & -> & Hl & _).
    simpl. by rewrite Hl.
  - rewrite (trim_valid_code code H). by apply toUpperCase_valid_code.
Qed.

(** X3: [addItem] and [createCategory] give the same result and leave the
    same store for a name and for that name trimmed beforehand, as the two
    forms hand it over. *)
Theorem callers_need_not_trim (listId name category : string) (s : Store.t) :
  Api.addItem listId (Js.trim name) category s
  = Api.addItem listId name category s
  /\ Api.createCategory listId (Js.trim name) s
     = Api.createCategory listId name s.
Proof.
  unfold Api.addItem, Api.createCategory, Api.categoryNameExists,
    Utils.isValidItemName, Utils.isValidCategoryName.
  by rewrite !trim_idem.
Qed.

(** * Reading rows in order *)

Section OrderBy.
Context {A : Type} (key : A -> Z).

Lemma insert_by_perm (x : A) (l : list A) :
  Tables.insert_by key x l ≡ₚ x :: l.
Proof.
  induction l as [|y l IH]; simpl; [done|].
  destruct (key y <? key x)%Z; [|done].
  rewrite IH. apply Permutation_swap.
Qed.

Lemma order_by_perm (l : list A) : Tables.order_by key l ≡ₚ l.
Proof.
  induction l as [|x l IH]; simpl; [done|].
  rewrite insert_by_perm. by rewrite IH.
Qed.

Lemma insert_by_ascending (x : A) (l : list A) :
  Notions.ascending key l -> Notions.ascending key (Tables.insert_by key x l).
Proof.
  unfold Notions.ascending.
  induction 1 as [|y l Hs IH Hy]; simpl; [repeat constructor|].
  destruct (Z.ltb_spec (key y) (key x)) as [Hlt|Hge].
  - constructor; [done|]. rewrite insert_by_perm.
    constructor; [lia|done].
  - constructor; [by constructor|]. constructor; [done|].
    eapply Forall_impl; [exact Hy|]. simpl. intros z Hz. lia.
Qed.

Lemma order_by_ascending (l : list A) :
  Notions.ascending key (Tables.order_by key l).
Proof.
  induction l as [|x l IH]; simpl; [constructor|].
  by apply insert_by_ascending.
Qed.

End OrderBy.

Lemma tables_request {A} (serve : Store.t -> Store.response A * Store.t)
    (s : Store.t) :
  Store.next_failure s = None ->
  Tables.request serve s
  = serve (Store.set_outcomes (tail (Store.outcomes s)) s).
Proof.
  unfold Store.next_failure, Tables.request.
  by destruct (Store.outcomes s) as [|[e|] rest].
Qed.

Lemma tables_request_failed {A}
    (serve : Store.t -> Store.response A * Store.t) (s : Store.t)
    (e : Store.PostgrestError) :
  Store.next_failure s = Some e ->
  Tables.request serve s
  = (Store.Error e, Store.set_outcomes (tail (Store.outcomes s)) s).
Proof.
  unfold Store.next_failure, Tables.request.
  destruct (Store.outcomes s) as [|[e'|] rest]; try done.
  by intros [= ->].
Qed.

(** X7: on a store that serves the request, [getCategories] resolves to
    the categories of the list and no others, each as often as the table
    holds it, in ascending [display_order]; when the request fails it
    throws [DATABASE_ERROR] with the message of the failure in its details.
    Either way the three tables are as before. *)
Theorem getCategories_rows_of_list_in_order (listId : string) (s : Store.t) :
  (Store.next_failure s = None ->
   exists rows s',
     Reads.getCategories listId s = (Api.Ok rows, s')
     /\ rows ≡ₚ Notions.categories_of listId s
     /\ Notions.ascending Category.display_order rows
     /\ Notions.tables s' = Notions.tables s)
  /\ (forall e, Store.next_failure s = Some e ->
        exists s',
          Reads.getCategories listId s
          = (Api.Throw (Api.mkApiError Api.DATABASE_ERROR
                          "Errore durante il recupero delle categorie."
                          (Some (Store.message e))), s')
          /\ Notions.tables s' = Notions.tables s).
Proof.
  unfold Reads.getCategories, Api.bind, Api.await, Tables.select_categories.
  split.
  - intros Hs. rewrite tables_request by done. simpl.
    eexists _, _. split; [reflexivity|].
    split; [apply order_by_perm|]. split; [apply order_by_ascending|done].
  - intros e He. rewrite (tables_request_failed _ _ e) by done. simpl.
    eexists. by split.
Qed.


Lemma getCategories_rows_of_list_in_order_witness :
  (exists rows s',
     Reads.getCategories "L1" Sample.list_with_snacks = (Api.Ok rows, s')
     /\ rows ≡ₚ Sample.default_rows ++ [Sample.snacks]
     /\ Notions.ascending Category.display_order rows)
  /\ exists e s',
       Reads.getCategories "L1" Cases.refusing = (Api.Throw e, s')
       /\ Notions.tables s' = Notions.tables Sample.list_with_snacks.
Proof.
  split.
  - destruct (getCategories_rows_of_list_in_order "L1"
                Sample.list_with_snacks) as [Hserved _].
    destruct (Hserved eq_refl) as (rows & s' & Hrun & Hperm & Hasc & _).
    exists rows, s'. split; [exact Hrun|]. split; [exact Hperm|exact Hasc].
  - destruct (getCategories_rows_of_list_in_order "L1" Cases.refusing)
      as [_ Hfailed].
    destruct (Hfailed Cases.refused eq_refl) as (s' & Hrun & Ht).
    eexists _, s'. split; [exact Hrun|exact Ht].
Defined.


(** X8: on a store that serves the request, [getItems] resolves to the
    items of the list and no others, each as often as the table holds it,
    in ascending order of the instants their [created_at] denote; when the
    request fails it throws [DATABASE_ERROR] with the message of the
    failure in its details.  Either way the three tables are as before. *)
Theorem getItems_rows_of_list_in_order (instant : string -> Z)
    (listId : string) (s : Store.t) :
  (Store.next_failure s = None ->
   exists rows s',
     Reads.getItems instant listId s = (Api.Ok rows, s')
     /\ rows ≡ₚ Notions.items_of listId s
     /\ Notions.ascending (fun i => instant (Item.created_at i)) rows
     /\ Notions.tables s' = Notions.tables s)
  /\ (forall e, Store.next_failure s = Some e ->
        exists s',
          Reads.getItems instant listId s
          = (Api.Throw (Api.mkApiError Api.DATABASE_ERROR
                          "Errore durante il recupero degli articoli."
                          (Some (Store.message e))), s')
          /\ Notions.tables s' = Notions.tables s).
Proof.
  unfold Reads.getItems, Api.bind, Api.await, Tables.select_items.
  split.
  - intros Hs. rewrite tables_request by done. simpl.
    eexists _, _. split; [reflexivity|].
    split; [apply order_by_perm|]. split; [apply order_by_ascending|done].
  - intros e He. rewrite (tables_request_failed _ _ e) by done. simpl.
    eexists. by split.
Qed.


Lemma getItems_rows_of_list_in_order_witness :
  exists rows s',
    Reads.getItems Cases.instant "L1" Sample.list_with_snacks
    = (Api.Ok rows, s')
    /\ rows ≡ₚ [Sample.milk; Sample.chips]
    /\ Notions.ascending (fun i => Cases.instant (Item.created_at i)) rows.
Proof.
  destruct (getItems_rows_of_list_in_order Cases.instant "L1"
              Sample.list_with_snacks) as [Hserved _].
  destruct (Hserved eq_refl) as (rows & s' & Hrun & Hperm & Hasc & _).
  exists rows, s'. split; [exact Hrun|]. split; [exact Hperm|exact Hasc].
Defined.


(** * Ticking and removing items *)

Lemma updateItemBought_run (itemId : string) (bought : bool) (s : Store.t) :
  Store.next_failure s = None ->
  Reads.updateItemBought itemId bought s
  = (Api.Ok tt,
     Store.set_items
       (List.map (fun i => if String.eqb (Item.id i) itemId
                           then Tables.with_bought bought i else i)
                 (Store.items s))
       (Store.set_outcomes (tail (Store.outcomes s)) s)).
Proof.
  intros Hs.
  unfold Reads.updateItemBought, Api.bind, Api.await,
    Tables.update_item_bought.
  by rewrite tables_request.
Qed.

Lemma updateItemBought_failed (itemId : string) (bought : bool) (s : Store.t)
    (e : Store.PostgrestError) :
  Store.next_failure s = Some e ->
  Reads.updateItemBought itemId bought s
  = (Api.Throw (Api.mkApiError Api.DATABASE_ERROR
                  "Impossibile aggiornare lo stato dell'articolo."
                  (Some (Store.message e))),
     Store.set_outcomes (tail (Store.outcomes s)) s).
Proof.
  intros Hs.
  unfold Reads.updateItemBought, Api.bind, Api.await,
    Tables.update_item_bought.
  by rewrite (tables_request_failed _ _ e).
Qed.

Lemma deleteItem_run (itemId : string) (s : Store.t) :
  Store.next_failure s = None ->
  Reads.deleteItem itemId s
  = (Api.Ok tt,
     Store.set_items
       (List.filter (fun i => negb (String.eqb (Item.id i) itemId))
                    (Store.items s))
       (Store.set_outcomes (tail (Store.outcomes s)) s)).
Proof.
  intros Hs.
  unfold Reads.deleteItem, Api.bind, Api.await, Tables.delete_item_by_id.
  by rewrite tables_request.
Qed.

Lemma deleteItem_failed (itemId : string) (s : Store.t)
    (e : Store.PostgrestError) :
  Store.next_failure s = Some e ->
  Reads.deleteItem itemId s
  = (Api.Throw (Api.mkApiError Api.DATABASE_ERROR
                  "Impossibile eliminare l'articolo."
                  (Some (Store.message e))),
     Store.set_outcomes (tail (Store.outcomes s)) s).
Proof.
  intros Hs.
  unfold Reads.deleteItem, Api.bind, Api.await, Tables.delete_item_by_id.
  by rewrite (tables_request_failed _ _ e).
Qed.

(** X9: on a store that serves the request, [updateItemBought] keeps the
    number and the order of the items; the item at each position keeps its
    identifier, list, name, category and creation time, and its bought
    state is the given one when it has the given identifier and is
    unchanged otherwise; lists and categories are as before.  When the
    request fails it throws [DATABASE_ERROR] and the three tables are as
    before. *)
Theorem updateItemBought_sets_flag_only (itemId : string) (bought : bool)
    (s : Store.t) :
  (Store.next_failure s = None ->
   exists s',
     Reads.updateItemBought itemId bought s = (Api.Ok tt, s')
     /\ length (Store.items s') = length (Store.items s)
     /\ (forall (n : nat) (i : Item.t), Store.items s !! n = Some i ->
           exists i', Store.items s' !! n = Some i'
             /\ Item.id i' = Item.id i
             /\ Item.list_id i' = Item.list_id i
             /\ Item.name i' = Item.name i
             /\ Item.category i' = Item.category i
             /\ Item.created_at i' = Item.created_at i
             /\ Item.bought i'
                = (if String.eqb (Item.id i) itemId then bought
                   else Item.bought i))
     /\ Store.lists s' = Store.lists s
     /\ Store.categories s' = Store.categories s)
  /\ (forall e, Store.next_failure s = Some e ->
        exists err s',
          Reads.updateItemBought itemId bought s = (Api.Throw err, s')
          /\ Api.code err = Api.DATABASE_ERROR
          /\ Notions.tables s' = Notions.tables s).
Proof.
  split.
  - intros Hs. rewrite updateItemBought_run by done.
    eexists. split; [reflexivity|]. simpl.
    split; [by rewrite length_map|]. split; [|done].
    intros n i Hn. rewrite list_lookup_fmap, Hn. simpl.
    eexists. split; [reflexivity|].
    by destruct (String.eqb (Item.id i) itemId).
  - intros e He. rewrite (updateItemBought_failed _ _ _ e) by done.
    eexists _, _. by split.
Qed.


Lemma updateItemBought_sets_flag_only_witness :
  exists s',
    Reads.updateItemBought "i1" true Sample.list_with_snacks = (Api.Ok tt, s')
    /\ exists i', Store.items s' !! 1 = Some i'
         /\ Item.name i' = "chips"%string
         /\ Item.bought i' = true.
Proof.
  destruct (updateItemBought_sets_flag_only "i1" true Sample.list_with_snacks)
    as [Hserved _].
  destruct (Hserved eq_refl) as (s' & Hrun & _ & Hrows & _).
  exists s'. split; [exact Hrun|].
  destruct (Hrows 1 Sample.chips eq_refl)
    as (i' & Hi' & _ & _ & Hname & _ & _ & Hbought).
  exists i'. split; [exact Hi'|]. split; [exact Hname|exact Hbought].
Defined.


(** X10: on a store that serves every request, two updates of the bought
    state of the same item leave the tables as the second update alone
    would: the last value wins, and repeating an update changes nothing.
    When every item with the identifier already had the second value, the
    tables are as before the two updates. *)
Theorem updateItemBought_last_value_wins (itemId : string) (b1 b2 : bool)
    (s : Store.t) :
  Store.outcomes s = [] ->
  exists s1 s2 s2',
    Reads.updateItemBought itemId b1 s = (Api.Ok tt, s1)
    /\ Reads.updateItemBought itemId b2 s1 = (Api.Ok tt, s2)
    /\ Reads.updateItemBought itemId b2 s = (Api.Ok tt, s2')
    /\ Notions.tables s2 = Notions.tables s2'
    /\ ((forall i, In i (Store.items s) -> Item.id i = itemId ->
                   Item.bought i = b2) ->
        Notions.tables s2 = Notions.tables s).
Proof.
  intros Hs.
  rewrite !updateItemBought_run by by apply next_failure_nil.
  eexists _, _, _. split; [reflexivity|].
  rewrite updateItemBought_run
    by (apply next_failure_nil; simpl; by rewrite Hs).
  split; [reflexivity|]. split; [reflexivity|].
  unfold Notions.tables. simpl. split.
  - f_equal. rewrite map_map. apply map_ext. intros i.
    destruct (String.eqb (Item.id i) itemId) eqn:E; simpl; by rewrite E.
  - intros Hb. f_equal. rewrite map_map.
    rewrite <- (map_id (Store.items s)) at 2.
    apply map_ext_in. intros i Hi.
    destruct (String.eqb_spec (Item.id i) itemId) as [E|E]; simpl.
    + destruct (String.eqb_spec (Item.id i) itemId); [|done].
      destruct i as [id l n c b t]. unfold Tables.with_bought. simpl.
      f_equal. symmetry. by apply (Hb _ Hi).
    + by destruct (String.eqb_spec (Item.id i) itemId).
Qed.


Lemma updateItemBought_last_value_wins_witness :
  exists s1 s2,
    Reads.updateItemBought "i1" true Sample.list_with_snacks = (Api.Ok tt, s1)
    /\ Reads.updateItemBought "i1" false s1 = (Api.Ok tt, s2)
    /\ Notions.tables s2 = Notions.tables Sample.list_with_snacks.
Proof.
  destruct (updateItemBought_last_value_wins "i1" true false
              Sample.list_with_snacks eq_refl)
    as (s1 & s2 & s2' & Hfirst & Hsecond & _ & _ & Hback).
  exists s1, s2. split; [exact Hfirst|]. split; [exact Hsecond|].
  apply Hback. intros i Hin Hid.
  destruct Hin as [<-|[<-|[]]]; [discriminate Hid|reflexivity].
Defined.


(** X11: on a store that serves the request, [deleteItem] leaves exactly
    the items whose identifier differs from the given one, in their order;
    when no item has the identifier the call still resolves and the items
    are as before; lists and categories are untouched.  When the request
    fails it throws [DATABASE_ERROR] and the three tables are as before. *)
Theorem deleteItem_removes_only_that_item (itemId : string) (s : Store.t) :
  (Store.next_failure s = None ->
   exists s',
     Reads.deleteItem itemId s = (Api.Ok tt, s')
     /\ Store.items s'
        = List.filter (fun i => negb (String.eqb (Item.id i) itemId))
                      (Store.items s)
     /\ (forall i, In i (Store.items s') <->
                   In i (Store.items s) /\ Item.id i <> itemId)
     /\ ((forall i, In i (Store.items s) -> Item.id i <> itemId) ->
         Store.items s' = Store.items s)
     /\ Store.lists s' = Store.lists s
     /\ Store.categories s' = Store.categories s)
  /\ (forall e, Store.next_failure s = Some e ->
        exists err s',
          Reads.deleteItem itemId s = (Api.Throw err, s')
          /\ Api.code err = Api.DATABASE_ERROR
          /\ Notions.tables s' = Notions.tables s).
Proof.
  split.
  - intros Hs. rewrite deleteItem_run by done.
    eexists. split; [reflexivity|]. simpl. split; [done|].
    split; [|split; [|done]].
    + intros i. rewrite filter_In, negb_true_iff.
      by destruct (String.eqb_spec (Item.id i) itemId); split; intros [? ?].
    + intros Hno. apply forallb_filter_id. apply forallb_forall.
      intros i Hi. apply negb_true_iff.
      destruct (String.eqb_spec (Item.id i) itemId); [|done].
      by destruct (Hno i Hi).
  - intros e He. rewrite (deleteItem_failed _ _ e) by done.
    eexists _, _. by split.
Qed.


Lemma deleteItem_removes_only_that_item_witness :
  (exists s',
     Reads.deleteItem "i2" Sample.list_with_snacks = (Api.Ok tt, s')
     /\ Store.items s' = [Sample.chips])
  /\ exists s',
       Reads.deleteItem "i9" Sample.list_with_snacks = (Api.Ok tt, s')
       /\ Store.items s' = [Sample.milk; Sample.chips].
Proof.
  split.
  - destruct (deleteItem_removes_only_that_item "i2" Sample.list_with_snacks)
      as [Hserved _].
    destruct (Hserved eq_refl) as (s' & Hrun & Hitems & _).
    exists s'. split; [exact Hrun|exact Hitems].
  - destruct (deleteItem_removes_only_that_item "i9" Sample.list_with_snacks)
      as [Hserved _].
    destruct (Hserved eq_refl) as (s' & Hrun & _ & _ & Hsame & _).
    exists s'. split; [exact Hrun|]. apply Hsame.
    intros i Hin. destruct Hin as [<-|[<-|[]]]; discriminate.
Defined.

(** * Creating a list *)

(** The insert of a generated code, when the store does not fail it on the
    way: the code is wider than the column. *)
Lemma insert_list_generated (random : nat -> nat) (s : Store.t) :
  Store.next_failure s = None ->
  Store.insert_list (Utils.generateListCode random) s
  = (Store.Error Store.value_too_long,
     Store.receive (Store.InsertList (Utils.generateListCode random)) s).
Proof.
  intros Hs. unfold Store.insert_list. rewrite request_served by done.
  by rewrite generateListCode_length.
Qed.

(** The loop of [createList] never gets a list back. *)
Lemma createList_loop_throws (random : nat -> nat -> nat)
    (remaining attempts : nat) (s : Store.t) :
  exists (e : Api.ApiError) (s' : Store.t) (k : nat),
    Api.createList_loop random remaining attempts s = (Api.Throw e, s')
    /\ Api.code e = Api.DATABASE_ERROR
    /\ Notions.tables s' = Notions.tables s
    /\ k <= remaining
    /\ (0 < remaining -> 0 < k)
    /\ Store.journal s'
       = Store.journal s
         ++ List.map (fun a => Store.InsertList
                                 (Utils.generateListCode (random a)))
                     (seq attempts k).
Proof.
  revert attempts s. induction remaining as [|remaining IH];
    intros attempts s.
  - eexists _, s, 0. simpl. rewrite app_nil_r.
    repeat split; try done; lia.
  - simpl. unfold Api.bind at 1, Api.await at 1.
    destruct (Store.next_failure s) as [e|] eqn:Hs.
    + unfold Store.insert_list. rewrite (request_failed _ _ _ e) by done.
      destruct (String.eqb (Store.code e) "23505") eqn:Hcode.
      * destruct (IH (S attempts)
                    (Store.receive
                       (Store.InsertList
                          (Utils.generateListCode (random attempts))) s))
          as (e' & s' & k & Hrun & He & Ht & Hk & _ & Hj).
        exists e', s', (S k). rewrite Hrun.
        split; [done|]. split; [done|]. split; [by rewrite Ht|].
        split; [lia|]. split; [lia|].
        rewrite Hj. simpl. by rewrite <- app_assoc.
      * eexists _, _, 1. split; [reflexivity|]. simpl.
        repeat split; try done; lia.
    + rewrite insert_list_generated by done. simpl.
      eexists _, _, 1. split; [reflexivity|]. simpl.
      repeat split; try done; lia.
Qed.

(** X4: [createList] never creates a list on the store of
    [supabase/schema.sql]: every code it generates has eleven code units
    and the column [lists.code] holds ten.  For every random source, every
    store and every script of failures it throws [DATABASE_ERROR] and
    leaves the three tables as they were, after at least one and at most
    five inserts of a list, and it sends nothing else.  When the store does
    not fail the first insert on its way, that insert is the only request,
    and the error carries the message that the list could not be created
    and, as details, the message of the store about the value that is too
    long. *)
Theorem createList_never_creates_a_list (random : nat -> nat -> nat)
    (s : Store.t) :
  (exists (e : Api.ApiError) (s' : Store.t) (k : nat),
     Api.createList random s = (Api.Throw e, s')
     /\ Api.code e = Api.DATABASE_ERROR
     /\ Notions.tables s' = Notions.tables s
     /\ 1 <= k <= Api.maxRetries
     /\ Store.journal s'
        = Store.journal s
          ++ List.map (fun a => Store.InsertList
                                  (Utils.generateListCode (random a)))
                      (seq 0 k))
  /\ (Store.next_failure s = None ->
      Api.createList random s
      = (Api.Throw
           (Api.mkApiError Api.DATABASE_ERROR "Impossibile creare la lista."
              (Some "value too long for type character varying(10)")),
         Store.receive
           (Store.InsertList (Utils.generateListCode (random 0))) s)).
Proof.
  unfold Api.createList, Api.maxRetries. split.
  - destruct (createList_loop_throws random 5 0 s)
      as (e & s' & k & Hrun & He & Ht & Hk & Hpos & Hj).
    exists e, s', k. repeat split; try done. lia.
  - intros Hs. simpl. unfold Api.bind, Api.await.
    by rewrite insert_list_generated.
Qed.

Lemma createList_never_creates_a_list_witness :
  Api.createList Sample.random Sample.empty
  = (Api.Throw
       (Api.mkApiError Api.DATABASE_ERROR "Impossibile creare la lista."
          (Some "value too long for type character varying(10)")),
     Store.receive (Store.InsertList "GRO-ABCDEFG") Sample.empty).
Proof.
  destruct (createList_never_creates_a_list Sample.random Sample.empty)
    as [_ Hserved].
  apply Hserved. reflexivity.
Defined.

(** * What the operations on categories never do *)

Lemma Forall2_map_either {A} (f : A -> A) (P : A -> A -> Prop) (l : list A) :
  (forall x, P x (f x)) -> Forall2 P l (List.map f l).
Proof. intros H. induction l; simpl; by constructor. Qed.

Lemma Forall2_same {A} (P : A -> A -> Prop) (l : list A) :
  (forall x, P x x) -> Forall2 P l l.
Proof. intros H. induction l; by constructor. Qed.

Lemma reassign_either (listId old : string) (i : Item.t) :
  Store.reassign listId old "Altro" i = i
  \/ Store.reassign listId old "Altro" i = Item.with_category "Altro" i.
Proof.
  unfold Store.reassign.
  destruct (String.eqb (Item.list_id i) listId
            && String.eqb (Item.category i) old); [by right|by left].
Qed.

Lemma single_data {A} (rows : list A) (row : A) :
  Store.single rows = Store.Data row -> rows = [row].
Proof. destruct rows as [|x [|y rows]]; simpl; try done. by intros [= ->]. Qed.

(** X13: for every store and every script of failures, after
    [deleteCategory] the lists are as before, there are as many items as
    before and each is either unchanged or changed in its category only, to
    ["Altro"]; every default category is still there, and no category has
    been added. *)
Theorem deleteCategory_spares_defaults_and_items (categoryId listId : string)
    (s : Store.t) :
  let s' := snd (Api.deleteCategory categoryId listId s) in
  Store.lists s' = Store.lists s
  /\ Forall2 (fun i i' => i' = i \/ i' = Item.with_category "Altro" i)
             (Store.items s) (Store.items s')
  /\ (forall c, In c (Store.categories s) -> Category.is_default c = true ->
                In c (Store.categories s'))
  /\ (forall c, In c (Store.categories s') -> In c (Store.categories s)).
Proof.
  assert (Hsame : forall l : list Item.t,
            Forall2 (fun i i' => i' = i \/ i' = Item.with_category "Altro" i)
                    l l).
  { intros l. apply Forall2_same. by left. }
  destruct s as [lists categories items outcomes journal uuid now].
  unfold Api.deleteCategory, Api.bind, Api.await,
    Store.select_category_by_id, Store.update_items_category,
    Store.delete_category_by_id, Store.request, Api.throw, Api.ret,
    Api.DEFAULT_REASSIGNMENT_CATEGORY.
  destruct outcomes as [|[e1|] [|[e2|] [|[e3|] outcomes]]]; simpl; try done.
  all: destruct (Store.single
                   (List.filter
                      (fun c => String.eqb (Category.id c) categoryId)
                      categories)) as [c0|e0] eqn:Hrow; simpl; try done.
  all: apply single_data in Hrow.
  all: destruct (Category.is_default c0) eqn:Hdef; simpl; try done.
  all: split; [done|].
  all: split;
    [first [apply Hsame
           |apply (Forall2_map_either
                     (Store.reassign listId (Category.name c0) "Altro")
                     (fun i i' => i' = i \/ i' = Item.with_category "Altro" i));
            intros i;
            destruct (reassign_either listId (Category.name c0) i)
              as [-> | ->]; [by left|by right]]|].
  all: split; [|first [done|by intros c Hc; apply filter_In in Hc as [Hc _]]].
  all: try done.
  all: intros c Hc Hd; apply filter_In; split; [done|];
    apply negb_true_iff; apply not_true_iff_false; intros E;
    assert (Hin : In c [c0]) by (rewrite <- Hrow; by apply filter_In);
    destruct Hin as [->|[]]; congruence.
Qed.

(** What [createCategory] leaves in the tables, whatever the store
    answers. *)
Lemma createCategory_tables (listId name : string) (s : Store.t) :
  let s' := snd (Api.createCategory listId name s) in
  Store.lists s' = Store.lists s
  /\ Store.items s' = Store.items s
  /\ match fst (Api.createCategory listId name s) with
     | Api.Ok c =>
         Store.categories s' = Store.categories s ++ [c]
         /\ Category.is_default c = false
         /\ Category.list_id c = listId
         /\ Category.name c = Js.trim name
         /\ Js.trim name <> EmptyString
         /\ Store.name_in_use listId (Js.trim name) (Store.categories s)
            = false
     | Api.Throw _ => Store.categories s' = Store.categories s
     end.
Proof.
  destruct s as [lists categories items outcomes journal uuid now].
  unfold Api.createCategory.
  destruct (Utils.isValidCategoryName name) eqn:Hvalid; simpl; [|done].
  assert (Hname : Js.trim name <> EmptyString).
  { intros E. unfold Utils.isValidCategoryName in Hvalid.
    by rewrite E in Hvalid. }
  unfold Api.bind, Api.categoryNameExists, Api.bind, Api.await,
    Store.select_categories_ilike, Store.select_top_display_order,
    Store.insert_category, Store.request, Api.throw, Api.ret.
  destruct outcomes as [|[e1|] [|[e2|] [|[e3|] outcomes]]]; simpl; try done.
  all: destruct (0 <? length _); simpl; try done.
  all: destruct (Store.name_in_use listId (Js.trim name) categories) eqn:Hfree;
    simpl; done.
Qed.
(** X14: for every store and every script of failures, [createCategory]
    leaves lists and items as they were.  When it resolves, the categories
    are the former ones followed by the category it resolves to, which is
    not a default category, belongs to the given list and carries the
    trimmed name, a name that is not empty and that no category of the list
    had.  When it throws, the categories are as before. *)
Theorem createCategory_adds_one_custom_row_or_nothing (listId name : string)
    (s : Store.t) :
  let s' := snd (Api.createCategory listId name s) in
  Store.lists s' = Store.lists s
  /\ Store.items s' = Store.items s
  /\ match fst (Api.createCategory listId name s) with
     | Api.Ok c =>
         Store.categories s' = Store.categories s ++ [c]
         /\ Category.is_default c = false
         /\ Category.list_id c = listId
         /\ Category.name c = Js.trim name
         /\ Js.trim name <> EmptyString
         /\ Store.name_in_use listId (Js.trim name) (Store.categories s)
            = false
     | Api.Throw _ => Store.categories s' = Store.categories s
     end.
Proof. apply createCategory_tables. Qed.

(** * More on the two orders *)

Lemma sort_ext {A} (f g : A -> A -> Js.number) (l : list A) :
  (forall a b, f a b = g a b) -> Js.sort f l = Js.sort g l.
Proof.
  intros H. induction l as [|x l IH]; [done|].
  simpl. rewrite IH. generalize (Js.sort g l). intros s.
  induction s as [|y s IHs]; [done|]. simpl. by rewrite H, IHs.
Qed.

Lemma compareOptions_compareCategories (localeCompare : string -> string -> Z)
    (a b : Category.t) :
  ListPage.compareOptions localeCompare a b
  = Sorting.compareCategories localeCompare a b.
Proof.
  unfold ListPage.compareOptions, Sorting.compareCategories.
  by destruct (Category.is_default a), (Category.is_default b).
Qed.

(** A list whose elements never compare as greater than a later one is left
    as it is. *)
Lemma sort_sorted_input {A} (comparefn : A -> A -> Js.number) (l : list A) :
  StronglySorted (fun a b => Js.is_positive (comparefn a b) = false) l ->
  Js.sort comparefn l = l.
Proof.
  induction 1 as [|x l Hs IH Hx]; [done|].
  simpl. rewrite IH. destruct l as [|y l]; [done|].
  apply Forall_cons in Hx as [Hxy _]. simpl. by rewrite Hxy.
Qed.

Lemma StronglySorted_weaken {A} (R S : A -> A -> Prop) (l : list A) :
  (forall a b, R a b -> S a b) -> StronglySorted R l -> StronglySorted S l.
Proof.
  intros H. induction 1 as [|x l Hs IH Hx]; constructor; [done|].
  eapply Forall_impl; [exact Hx|]. apply H.
Qed.

Lemma category_before_not_positive (localeCompare : string -> string -> Z)
    (a b : Category.t) :
  Spec.category_before localeCompare a b ->
  Js.is_positive (Sorting.compareCategories localeCompare a b) = false.
Proof.
  unfold Spec.category_before, Sorting.compareCategories.
  intros (Hd & Ho & Hn).
  destruct (Category.is_default a), (Category.is_default b); simpl.
  - apply Z.ltb_ge. specialize (Ho eq_refl eq_refl). lia.
  - done.
  - discriminate (Hd eq_refl).
  - apply Z.ltb_ge. by apply Hn.
Qed.

(** X15: the order of the category selector in the form for new items is
    the order of [sortCategories]: the two comparators are written
    differently and agree on every pair.  The result is a permutation of
    the categories; for a consistent [localeCompare] it has the defaults
    first by [display_order] and then the customs by name, and sorting it
    again changes nothing. *)
Theorem sortedCategories_orders_like_sortCategories
    (localeCompare : string -> string -> Z) (categories : list Category.t) :
  ListPage.sortedCategories localeCompare categories
  = Sorting.sortCategories localeCompare categories
  /\ ListPage.sortedCategories localeCompare categories ≡ₚ categories
  /\ (Spec.consistent localeCompare ->
      StronglySorted (Spec.category_before localeCompare)
        (ListPage.sortedCategories localeCompare categories)
      /\ Sorting.sortCategories localeCompare
           (ListPage.sortedCategories localeCompare categories)
         = ListPage.sortedCategories localeCompare categories).
Proof.
  assert (E : ListPage.sortedCategories localeCompare categories
              = Sorting.sortCategories localeCompare categories).
  { apply sort_ext. apply compareOptions_compareCategories. }
  rewrite E. split; [done|]. split; [apply sortCategories_perm|].
  intros Hc.
  pose proof (sortCategories_sorted localeCompare Hc categories) as Hs.
  split; [done|].
  apply sort_sorted_input.
  eapply StronglySorted_weaken; [|exact Hs].
  intros a b. apply category_before_not_positive.
Qed.

Lemma sortedCategories_orders_like_sortCategories_witness :
  StronglySorted (Spec.category_before Sample.collation)
    (ListPage.sortedCategories Sample.collation Sample.shelves)
  /\ ListPage.sortedCategories Sample.collation Sample.shelves
     = [Sample.latticini; Sample.altro; Sample.snacks].
Proof.
  destruct (sortedCategories_orders_like_sortCategories Sample.collation
              Sample.shelves) as (_ & _ & H).
  destruct H as [Hs _].
  - unfold Spec.consistent, Sample.collation, Spec.by_key.
    split; intros; lia.
  - split; [exact Hs|reflexivity].
Defined.

(** X16: [groupItemsByCategory] yields no group, so that the page shows
    its placeholder for an empty list, exactly when no item carries the name
    of one of the given categories. *)
Theorem groupItemsByCategory_empty_iff
    (localeCompare : string -> string -> Z) (items : list Item.t)
    (categories : list Category.t) :
  Sorting.groupItemsByCategory localeCompare items categories = []
  <-> forall i, In i items -> Spec.has_category categories i = false.
Proof.
  rewrite groupItemsByCategory_eq. split.
  - intros H i Hi. apply not_true_iff_false. intros Hhas.
    unfold Spec.has_category in Hhas.
    apply existsb_exists in Hhas as (c & Hc & E).
    assert (Hin : In c (Sorting.sortCategories localeCompare
                          (List.filter (Spec.is_used items) categories))).
    { apply list_elem_of_In. rewrite sortCategories_perm.
      apply list_elem_of_In. apply filter_In. split; [done|].
      unfold Spec.is_used. apply existsb_exists. exists i.
      split; [done|]. unfold Spec.in_category.
      apply String.eqb_eq. apply String.eqb_eq in E. done. }
    destruct (Sorting.sortCategories _ _); [done|discriminate H].
  - intros H.
    assert (E : List.filter (Spec.is_used items) categories = []).
    { apply filter_nil_existsb. apply not_true_iff_false. intros Hex.
      apply existsb_exists in Hex as (c & Hc & Hu).
      unfold Spec.is_used in Hu.
      apply existsb_exists in Hu as (i & Hi & Hic).
      specialize (H i Hi). apply not_true_iff_false in H. apply H.
      unfold Spec.has_category. apply existsb_exists. exists c.
      split; [done|]. unfold Spec.in_category in Hic.
      apply String.eqb_eq. apply String.eqb_eq in Hic. done. }
    by rewrite E.
Qed.

Lemma ties_not_positive (getTime : string -> Js.number) (x a b : Item.t) :
  Notions.ties_with getTime x a = true ->
  Notions.ties_with getTime x b = true ->
  Js.is_positive (Sorting.compareItems getTime a b) = false.
Proof.
  unfold Notions.ties_with, Notions.same_instant, Sorting.compareItems.
  intros Ha Hb.
  apply andb_true_iff in Ha as [Ba Ta], Hb as [Bb Tb].
  apply Bool.eqb_prop in Ba, Bb. rewrite Ba, Bb, Bool.eqb_reflx. simpl.
  destruct (getTime (Item.created_at a)) as [|ta],
    (getTime (Item.created_at b)) as [|tb],
    (getTime (Item.created_at x)) as [|tx]; try done.
  simpl. apply Z.eqb_eq in Ta, Tb. apply Z.ltb_ge. lia.
Qed.

(** X17: when every [created_at] of the input denotes a time value, as
    the timestamps of stored items do, the items that share bought state
    and creation time with any given item stand, in the array
    [sortItemsWithinCategory] returns, in the order they had in the
    input. *)
Theorem sortItemsWithinCategory_keeps_ties_in_order
    (getTime : string -> Js.number) (h : gmap nat (list Item.t)) (a : nat)
    (l : list Item.t) :
  h !! a = Some l ->
  Forall (Spec.valid_time getTime) l ->
  exists (out : nat) (sorted : list Item.t),
    Sorting.sortItemsWithinCategory getTime h a
      = Some (out, <[out := sorted]> h)
    /\ forall x : Item.t,
         List.filter (Notions.ties_with getTime x) sorted
         = List.filter (Notions.ties_with getTime x) l.
Proof.
  intros Ha _.
  exists (fresh (dom h)), (Js.sort (Sorting.compareItems getTime) l).
  split.
  - unfold Sorting.sortItemsWithinCategory, Sorting.spread,
      Sorting.sort_in_place.
    rewrite Ha. simpl. rewrite lookup_insert_eq. simpl.
    by rewrite insert_insert_eq.
  - intros x. apply sort_stable. apply ties_not_positive.
Qed.

Lemma sortItemsWithinCategory_keeps_ties_in_order_witness :
  exists (out : nat) (sorted : list Item.t),
    Sorting.sortItemsWithinCategory Sample.length_time Cases.heap 0
      = Some (out, <[out := sorted]> Cases.heap)
    /\ List.filter (Notions.ties_with Sample.length_time Sample.chips) sorted
       = [Sample.chips; Cases.crisps].
Proof.
  destruct (sortItemsWithinCategory_keeps_ties_in_order Sample.length_time
              Cases.heap 0
              [Sample.milk; Sample.chips; Sample.apples; Cases.crisps])
    as (out & sorted & Hrun & Hties).
  - by (vm_compute; reflexivity).
  - repeat constructor; discriminate.
  - exists out, sorted. split; [exact Hrun|]. by rewrite Hties.
Defined.

(** * Merging changes twice *)

Lemma map_replace_idem {A} (p : A -> bool) (r : A) (l : list A) :
  p r = true ->
  List.map (fun x => if p x then r else x)
           (List.map (fun x => if p x then r else x) l)
  = List.map (fun x => if p x then r else x) l.
Proof.
  intros Hr. rewrite map_map. apply map_ext. intros x.
  destruct (p x) eqn:E; [by rewrite Hr|by rewrite E].
Qed.

Lemma filter_idem {A} (p : A -> bool) (l : list A) :
  List.filter p (List.filter p l) = List.filter p l.
Proof.
  apply forallb_filter_id. apply forallb_forall. intros x Hx.
  by apply filter_In in Hx as [_ Hx].
Qed.

Lemma append_once_idem {A} (p : A -> bool) (x : A) (l : list A) :
  p x = true ->
  (if existsb p (if existsb p l then l else l ++ [x])
   then (if existsb p l then l else l ++ [x])
   else (if existsb p l then l else l ++ [x]) ++ [x])
  = (if existsb p l then l else l ++ [x]).
Proof.
  intros Hx. destruct (existsb p l) eqn:E; [by rewrite E|].
  rewrite existsb_app. simpl. by rewrite Hx, orb_true_r.
Qed.

Lemma to_altro_idem (name : string) (l : list Item.t) :
  let f := fun item => if String.eqb (Item.category item) name
                       then Item.with_category "Altro" item else item in
  List.map f (List.map f l) = List.map f l.
Proof.
  intros f. rewrite map_map. apply map_ext. intros i. unfold f.
  destruct (String.eqb (Item.category i) name) eqn:E; [|by rewrite E].
  change (Item.category (Item.with_category "Altro" i)) with "Altro"%string.
  by destruct (String.eqb "Altro" name).
Qed.

Lemma merge_to_altro_idem (name : option string) (l : list Item.t) :
  let f := fun item => if Realtime.equals (Item.category item) name
                       then Item.with_category "Altro" item else item in
  List.map f (List.map f l) = List.map f l.
Proof.
  destruct name as [name|]; simpl.
  - apply to_altro_idem.
  - by rewrite !map_id.
Qed.

Lemma merge_to_altro_after (name : string) (old : option string)
    (l : list Item.t) :
  old = None \/ old = Some name ->
  List.map (fun item => if Realtime.equals (Item.category item) old
                        then Item.with_category "Altro" item else item)
    (List.map (fun item => if String.eqb (Item.category item) name
                           then Item.with_category "Altro" item else item) l)
  = List.map (fun item => if String.eqb (Item.category item) name
                          then Item.with_category "Altro" item else item) l.
Proof.
  intros [-> | ->]; simpl.
  - apply map_id.
  - apply to_altro_idem.
Qed.

Lemma filter_key_after (A : Type) (key : A -> string) (id : string)
    (l : list A) :
  List.filter (fun x => negb (Realtime.equals (key x) (Some id)))
    (List.filter (fun x => negb (String.eqb (key x) id)) l)
  = List.filter (fun x => negb (String.eqb (key x) id)) l.
Proof. apply filter_idem. Qed.

(** X18: delivering the same change twice in a row leaves the page as
    delivering it once, for every change of an item or a category and every
    page. *)
Theorem notify_twice_is_once (change : Realtime.Change) (p : Realtime.Page) :
  Realtime.notify change (Realtime.notify change p)
  = Realtime.notify change p.
Proof.
  destruct p as [[channel|] [items categories]]; [|done].
  destruct change as [[[] [new|] old]|[[] new [old|]]];
    try destruct old as [old|]; try destruct new as [new|];
    cbn; try done;
    unfold Realtime.setItems, Realtime.setCategories;
    cbn [Realtime.items Realtime.categories].
  all: first
    [ by rewrite (append_once_idem
                    (fun i => String.eqb (Item.id i) (Item.id new)))
        by apply String.eqb_refl
    | by rewrite (append_once_idem
                    (fun c => String.eqb (Category.id c) (Category.id new)))
        by apply String.eqb_refl
    | by rewrite (map_replace_idem
                    (fun i => String.eqb (Item.id i) (Item.id new)))
        by apply String.eqb_refl
    | by rewrite (map_replace_idem
                    (fun c => String.eqb (Category.id c) (Category.id new)))
        by apply String.eqb_refl
    | by rewrite merge_to_altro_idem, filter_idem
    | by rewrite filter_idem ].
Qed.

(** * Local updates and their echoes *)

Lemma existsb_snoc_self {A} (p : A -> bool) (x : A) (l : list A) :
  p x = true -> existsb p (l ++ [x]) = true.
Proof. intros H. rewrite existsb_app. simpl. by rewrite H, orb_true_r. Qed.

(** X19: after the page has applied its own update (an item added,
    updated or deleted, a category created, or a category of its state
    deleted), the realtime event that reports the same change leaves the
    state as it is.  For a delete this holds for every old record that
    holds the identifier, whether it holds the other members of the row or
    the primary key only. *)
Theorem echo_of_local_update_is_absorbed (v : Realtime.View) :
  (forall (item : Item.t) (old : option PartialItem.t),
     let v' := ListPage.handleItemAdded item v in
     Realtime.handleItemChange Realtime.realtimeCallbacks
       (Realtime.mkPayload Realtime.INSERT (Some item) old) v' = v')
  /\ (forall (item : Item.t) (old : option PartialItem.t),
        let v' := ListPage.handleItemUpdated item v in
        Realtime.handleItemChange Realtime.realtimeCallbacks
          (Realtime.mkPayload Realtime.UPDATE (Some item) old) v' = v')
  /\ (forall (item : Item.t) (new : option Item.t) (old : PartialItem.t),
        PartialItem.id old = Some (Item.id item) ->
        let v' := ListPage.handleItemDeleted (Item.id item) v in
        Realtime.handleItemChange Realtime.realtimeCallbacks
          (Realtime.mkPayload Realtime.DELETE new (Some old)) v' = v')
  /\ (forall (category : Category.t) (old : option PartialCategory.t),
        let v' := ListPage.handleCategoryCreated category v in
        Realtime.handleCategoryChange Realtime.realtimeCallbacks
          (Realtime.mkPayload Realtime.INSERT (Some category) old) v' = v')
  /\ (forall (category : Category.t) (new : option Category.t)
             (old : PartialCategory.t),
        List.find (fun cat => String.eqb (Category.id cat)
                                         (Category.id category))
                  (Realtime.categories v) = Some category ->
        PartialCategory.id old = Some (Category.id category) ->
        PartialCategory.name old = None
        \/ PartialCategory.name old = Some (Category.name category) ->
        let v' := ListPage.handleCategoryDeleted (Realtime.categories v)
                    (Category.id category) v in
        Realtime.handleCategoryChange Realtime.realtimeCallbacks
          (Realtime.mkPayload Realtime.DELETE new (Some old)) v' = v').
Proof.
  destruct v as [items categories].
  unfold ListPage.handleItemAdded, ListPage.handleItemUpdated,
    ListPage.handleItemDeleted, ListPage.handleCategoryCreated,
    ListPage.handleCategoryDeleted.
  repeat split.
  - intros item old. cbn. unfold Realtime.setItems.
    cbn [Realtime.items Realtime.categories].
    by rewrite existsb_snoc_self by apply String.eqb_refl.
  - intros item old. cbn. unfold Realtime.setItems.
    cbn [Realtime.items Realtime.categories].
    by rewrite (map_replace_idem
                  (fun i => String.eqb (Item.id i) (Item.id item)))
      by apply String.eqb_refl.
  - intros item new old Hid. cbn. unfold Realtime.setItems.
    cbn [Realtime.items Realtime.categories].
    by rewrite Hid, (filter_key_after _ Item.id).
  - intros category old. cbn. unfold Realtime.setCategories.
    cbn [Realtime.items Realtime.categories].
    by rewrite existsb_snoc_self by apply String.eqb_refl.
  - intros category new old Hfind Hid Hname. cbn [Realtime.categories] in *.
    rewrite Hfind. cbn. unfold Realtime.setItems, Realtime.setCategories.
    cbn [Realtime.items Realtime.categories].
    by rewrite Hid, (filter_key_after _ Category.id),
      (merge_to_altro_after (Category.name category)).
Qed.

Lemma echo_of_local_update_is_absorbed_witness :
  ListPage.handleCategoryDeleted (Realtime.categories Cases.shown) "c100"
    Cases.shown
  = Realtime.mkView [Sample.milk; Item.mk "i1" "L1" "chips" "Altro" false "t1"]
                    Sample.default_rows
  /\ Realtime.handleCategoryChange Realtime.realtimeCallbacks
       (Realtime.mkPayload Realtime.DELETE None
          (Some (PartialCategory.key_only "c100")))
       (ListPage.handleCategoryDeleted (Realtime.categories Cases.shown)
          "c100" Cases.shown)
     = ListPage.handleCategoryDeleted (Realtime.categories Cases.shown)
         "c100" Cases.shown
  /\ Realtime.handleCategoryChange Realtime.realtimeCallbacks
       (Realtime.mkPayload Realtime.DELETE None
          (Some (PartialCategory.of_row Sample.snacks)))
       (ListPage.handleCategoryDeleted (Realtime.categories Cases.shown)
          "c100" Cases.shown)
     = ListPage.handleCategoryDeleted (Realtime.categories Cases.shown)
         "c100" Cases.shown.
Proof.
  split; [reflexivity|].
  destruct (echo_of_local_update_is_absorbed Cases.shown)
    as (_ & _ & _ & _ & Hdeleted).
  split.
  - apply (Hdeleted Sample.snacks None (PartialCategory.key_only "c100"));
      [reflexivity|reflexivity|left; reflexivity].
  - apply (Hdeleted Sample.snacks None (PartialCategory.of_row Sample.snacks));
      [reflexivity|reflexivity|right; reflexivity].
Defined.

(** X20: [handleItemAdded] appends without looking at the identifiers.
    For an item the page does not show yet: when the realtime insert event
    comes after the local update the item is shown once, and when the event
    comes first and the local update second the item is shown twice. *)
Theorem late_local_add_shows_item_twice (item : Item.t) (v : Realtime.View) :
  Notions.shown_times (Item.id item) v = 0 ->
  let event := Realtime.mkPayload Realtime.INSERT (Some item) None in
  Notions.shown_times (Item.id item)
    (Realtime.handleItemChange Realtime.realtimeCallbacks event
       (ListPage.handleItemAdded item v)) = 1
  /\ Notions.shown_times (Item.id item)
       (ListPage.handleItemAdded item
          (Realtime.handleItemChange Realtime.realtimeCallbacks event v)) = 2.
Proof.
  destruct v as [items categories].
  unfold Notions.shown_times, ListPage.handleItemAdded. cbn.
  unfold Realtime.setItems. cbn [Realtime.items Realtime.categories].
  intros Hnone.
  assert (Hex : existsb (fun i => String.eqb (Item.id i) (Item.id item)) items
                = false).
  { apply not_true_iff_false. intros E.
    apply existsb_exists in E as (i & Hi & E).
    assert (Hin : In i (List.filter
                         (fun i => String.eqb (Item.id i) (Item.id item))
                         items)) by by apply filter_In.
    destruct (List.filter _ items); [done|done]. }
  rewrite existsb_snoc_self by apply String.eqb_refl.
  rewrite Hex. rewrite !List.filter_app, !length_app, Hnone. simpl.
  by rewrite String.eqb_refl.
Qed.


Lemma late_local_add_shows_item_twice_witness :
  Notions.shown_times "i3"
    (ListPage.handleItemAdded Sample.apples
       (Realtime.handleItemChange Realtime.realtimeCallbacks
          (Realtime.mkPayload Realtime.INSERT (Some Sample.apples) None)
          Cases.shown)) = 2.
Proof.
  destruct (late_local_add_shows_item_twice Sample.apples Cases.shown
              eq_refl) as [_ Htwice].
  exact Htwice.
Defined.

(** * The page and the store *)

Lemma filter_perm {A} (p : A -> bool) (l1 l2 : list A) :
  l1 ≡ₚ l2 -> List.filter p l1 ≡ₚ List.filter p l2.
Proof.
  induction 1 as [|x l1 l2 H IH|x y l|l1 l2 l3 H1 IH1 H2 IH2]; simpl.
  - done.
  - destruct (p x); [by constructor|done].
  - destruct (p x), (p y); try done. apply Permutation_swap.
  - by etrans.
Qed.

Lemma filter_map_same {A} (p : A -> bool) (f : A -> A) (l : list A) :
  (forall x, p (f x) = p x) ->
  List.filter p (List.map f l) = List.map f (List.filter p l).
Proof.
  intros H. induction l as [|x l IH]; simpl; [done|].
  rewrite H. destruct (p x); simpl; by rewrite IH.
Qed.

Lemma filter_comm {A} (p q : A -> bool) (l : list A) :
  List.filter p (List.filter q l) = List.filter q (List.filter p l).
Proof.
  induction l as [|x l IH]; simpl; [done|].
  destruct (p x) eqn:Ep, (q x) eqn:Eq; simpl; rewrite ?Ep, ?Eq, IH; done.
Qed.

Lemma filter_unique {A} (f : A -> string) (l : list A) (x : A) :
  List.NoDup (List.map f l) -> In x l ->
  List.filter (fun y => String.eqb (f y) (f x)) l = [x].
Proof.
  induction l as [|z l IH]; [done|]. simpl.
  intros Hnd Hx. inversion Hnd as [|? ? Hz Hl]; subst.
  destruct Hx as [->|Hx].
  - rewrite String.eqb_refl. f_equal.
    apply filter_nil_existsb. apply not_true_iff_false. intros Hex.
    apply existsb_exists in Hex as (y & Hy & Ey). apply String.eqb_eq in Ey.
    apply Hz. rewrite <- Ey. by apply in_map.
  - destruct (String.eqb_spec (f z) (f x)) as [E|E]; [|by apply IH].
    exfalso. apply Hz. rewrite E. by apply in_map.
Qed.

Lemma find_unique {A} (p : A -> bool) (l : list A) (x : A) :
  In x l -> p x = true -> (forall y, In y l -> p y = true -> y = x) ->
  List.find p l = Some x.
Proof.
  induction l as [|z l IH]; [done|]. simpl. intros Hx Hp Hall.
  destruct (p z) eqn:E.
  - f_equal. apply Hall; [by left|done].
  - destruct Hx as [->|Hx]; [congruence|].
    apply IH; try done. intros y Hy. apply Hall. by right.
Qed.


Lemma in_sync_category (listId : string) (v : Realtime.View) (s : Store.t)
    (c : Category.t) :
  Notions.in_sync listId v s -> In c (Realtime.categories v) ->
  In c (Store.categories s) /\ Category.list_id c = listId.
Proof.
  intros [_ Hc] Hin. apply list_elem_of_In in Hin. rewrite Hc in Hin.
  apply list_elem_of_In in Hin. unfold Notions.categories_of in Hin.
  apply filter_In in Hin as [Hin E]. by apply String.eqb_eq in E.
Qed.




Lemma shown_in_sync :
  Notions.in_sync "L1" Cases.shown Sample.list_with_snacks.
Proof. split; apply Permutation_refl. Defined.




Lemma deleteCategory_tables (categoryId listId : string) (s : Store.t)
    (c : Category.t) :
  Store.outcomes s = [] ->
  List.filter (fun c' => String.eqb (Category.id c') categoryId)
              (Store.categories s) = [c] ->
  let s' := snd (Api.deleteCategory categoryId listId s) in
  if Category.is_default c then
    (exists e, fst (Api.deleteCategory categoryId listId s) = Api.Throw e)
    /\ Store.items s' = Store.items s
    /\ Store.categories s' = Store.categories s
  else
    fst (Api.deleteCategory categoryId listId s) = Api.Ok tt
    /\ Store.items s'
       = List.map (Store.reassign listId (Category.name c) "Altro")
                  (Store.items s)
    /\ Store.categories s'
       = List.filter (fun c' => negb (String.eqb (Category.id c') categoryId))
                     (Store.categories s).
Proof.
  destruct s as [lists categories items outcomes journal uuid now].
  simpl. intros -> Hrow.
  unfold Api.deleteCategory, Api.bind, Api.await,
    Store.select_category_by_id, Store.update_items_category,
    Store.delete_category_by_id, Store.request, Api.throw, Api.ret,
    Api.DEFAULT_REASSIGNMENT_CATEGORY.
  simpl. rewrite Hrow. simpl.
  destruct (Category.is_default c); simpl; [|done].
  split; [by eexists|done].
Qed.

(** X22: when the page shows the rows the store holds for the list, it
    still does after [handleCreateCategory], whatever the store answers,
    and after [handleDeleteCategory] of a category it shows, on a store that
    serves every request and holds distinct category identifiers.  For a
    category among [customCategories], the ones that have a delete button,
    the handler then shows no error and the category is gone from the
    page. *)
Theorem category_handlers_keep_page_in_sync (listId : string)
    (v : Realtime.View) (s : Store.t) :
  Notions.in_sync listId v s ->
  (forall newCategoryName : string,
     let w := Components.handleCreateCategory listId newCategoryName v s in
     Notions.in_sync listId (Components.view w) (Components.store w))
  /\ (forall category : Category.t,
        In category (Realtime.categories v) ->
        List.NoDup (List.map Category.id (Store.categories s)) ->
        Store.outcomes s = [] ->
        let w := Components.handleDeleteCategory listId
                   (Category.id category) v s in
        Notions.in_sync listId (Components.view w) (Components.store w)
        /\ (In category (ListPage.customCategories (Realtime.categories v)) ->
            Components.error w = None
            /\ ~ In category (Realtime.categories (Components.view w)))).
Proof.
  intros Hsync. pose proof Hsync as [Hi Hc]. split.
  - intros newCategoryName. unfold Components.handleCreateCategory.
    destruct (Utils.isValidCategoryName newCategoryName); simpl; [|done].
    destruct (Components.isDuplicate (Realtime.categories v) newCategoryName);
      simpl; [done|].
    pose proof (createCategory_tables listId (Js.trim newCategoryName) s)
      as (_ & Hitems & Hcats).
    destruct (Api.createCategory listId (Js.trim newCategoryName) s)
      as [[c|e] s']; simpl in *.
    + destruct Hcats as (Hcats & _ & Hlist & _).
      unfold Notions.in_sync, Notions.items_of, Notions.categories_of.
      rewrite Hcats, Hitems, List.filter_app. simpl.
      rewrite <- Hlist, String.eqb_refl, Hlist. split; [done|].
      by apply Permutation_app_tail.
    + unfold Notions.in_sync, Notions.items_of, Notions.categories_of.
      by rewrite Hcats, Hitems.
  - intros category Hin Hnd Hout.
    destruct (in_sync_category listId v s category Hsync Hin)
      as [Hstored Hlist].
    pose proof (deleteCategory_tables (Category.id category) listId s category
                  Hout (filter_unique Category.id _ _ Hnd Hstored)) as Hrun.
    unfold Components.handleDeleteCategory.
    destruct (Api.deleteCategory (Category.id category) listId s)
      as [r s']. simpl in Hrun.
    destruct (Category.is_default category) eqn:Hdef.
    { destruct Hrun as ((e & ->) & Hitems & Hcats). simpl.
      split.
      2:{ intros Hcustom. apply filter_In in Hcustom as [_ Hcustom].
          by rewrite Hdef in Hcustom. }
      unfold Notions.in_sync, Notions.items_of, Notions.categories_of.
      by rewrite Hcats, Hitems. }
    destruct Hrun as (-> & Hitems & Hcats). simpl.
    assert (Hfind : List.find
                (fun cat => String.eqb (Category.id cat) (Category.id category))
                (Realtime.categories v) = Some category).
    { apply find_unique; [done|apply String.eqb_refl|].
      intros c' Hc' E. apply String.eqb_eq in E.
      destruct (in_sync_category listId v s c' Hsync Hc') as [Hc'' _].
      by apply (NoDup_map_inj Category.id (Store.categories s)). }
    unfold ListPage.handleCategoryDeleted. rewrite Hfind.
    unfold Realtime.setItems, Realtime.setCategories.
    cbn [Realtime.items Realtime.categories].
    split; [split|intros _; split; [done|]].
    + unfold Notions.items_of. cbn [Realtime.items]. rewrite Hitems.
      rewrite filter_map_same.
      2:{ intros i. unfold Store.reassign.
          by destruct (String.eqb (Item.list_id i) listId
                       && String.eqb (Item.category i)
                                     (Category.name category)). }
      rewrite (map_ext_in
                 (Store.reassign listId (Category.name category) "Altro")
                 (fun item => if String.eqb (Item.category item)
                                            (Category.name category)
                              then Item.with_category "Altro" item
                              else item)).
      * by apply Permutation_map.
      * intros i Hfi. apply filter_In in Hfi as [_ E].
        unfold Store.reassign. by rewrite E.
    + unfold Notions.categories_of. cbn [Realtime.categories].
      rewrite Hcats, filter_comm. by apply filter_perm.
    + cbn [Realtime.categories]. intros Hstill.
      apply filter_In in Hstill as [_ Hstill].
      by rewrite String.eqb_refl in Hstill.
Qed.


Lemma category_handlers_keep_page_in_sync_witness :
  Notions.in_sync "L1"
    (Components.view
       (Components.handleDeleteCategory "L1" "c100" Cases.shown
          Sample.list_with_snacks))
    (Components.store
       (Components.handleDeleteCategory "L1" "c100" Cases.shown
          Sample.list_with_snacks))
  /\ Components.error
       (Components.handleDeleteCategory "L1" "c100" Cases.shown
          Sample.list_with_snacks) = None
  /\ Notions.in_sync "L1"
       (Components.view
          (Components.handleCreateCategory "L1" "Bevande" Cases.shown
             Sample.list_with_snacks))
       (Components.store
          (Components.handleCreateCategory "L1" "Bevande" Cases.shown
             Sample.list_with_snacks)).
Proof.
  destruct (category_handlers_keep_page_in_sync "L1" Cases.shown
              Sample.list_with_snacks shown_in_sync)
    as (Hcreate & Hdelete).
  destruct (Hdelete Sample.snacks) as (Hsync & Hcustom).
  - do 6 right. left. reflexivity.
  - repeat constructor; simpl; intuition discriminate.
  - reflexivity.
  - split; [exact Hsync|]. split; [|apply Hcreate].
    apply Hcustom. apply filter_In. split; [|reflexivity].
    do 6 right. left. reflexivity.
Defined.

(** * Opening a list *)

Lemma loadListData_found (instant : string -> Z) (code : string)
    (d : Components.Dashboard) (s : Store.t) (row : GroceryList.t) :
  Utils.isValidListCodeFormat code = true ->
  Store.outcomes s = [] ->
  List.filter (fun l => String.eqb (GroceryList.code l) code) (Store.lists s)
  = [row] ->
  exists s',
    Components.loadListData instant code d s
    = (Components.mkDashboard (Some row)
         (Realtime.mkView
            (Tables.order_by (fun i => instant (Item.created_at i))
               (Notions.items_of (GroceryList.id row) s))
            (Tables.order_by Category.display_order
               (Notions.categories_of (GroceryList.id row) s)))
         None, s')
    /\ Notions.tables s' = Notions.tables s
    /\ Store.outcomes s' = [].
Proof.
  intros Hvalid Hout Hrow.
  destruct s as [lists categories items outcomes journal uuid now].
  simpl in *. subst outcomes.
  unfold Components.loadListData, Api.getListByCode.
  rewrite Hvalid, (toUpperCase_valid_code code Hvalid). simpl.
  unfold Api.bind, Api.await, Store.select_list_by_code, Store.request.
  simpl. rewrite Hrow. simpl.
  unfold Reads.getItems, Reads.getCategories, Api.bind, Api.await,
    Tables.select_items, Tables.select_categories, Tables.request. simpl.
  eexists. split; [reflexivity|]. done.
Qed.

(** X24: for a string that does not have the code format [loadListData]
    shows [LIST_NOT_FOUND], sends nothing and keeps the state.  For a code
    that exactly one list has, on a store that serves every request, it
    stores that list, shows no error, and shows the items and categories
    the store holds for the list, the items in order of creation and the
    categories in ascending [display_order]; the tables are as before. *)
Theorem loadListData_shows_the_rows_of_the_list (instant : string -> Z)
    (code : string) (d : Components.Dashboard) (s : Store.t) :
  (Utils.isValidListCodeFormat code = false ->
   Components.loadListData instant code d s
   = (Components.mkDashboard (Components.list d) (Components.shown d)
        (Some Components.LIST_NOT_FOUND), s))
  /\ (forall row : GroceryList.t,
        Utils.isValidListCodeFormat code = true ->
        Store.outcomes s = [] ->
        List.filter (fun l => String.eqb (GroceryList.code l) code)
                    (Store.lists s) = [row] ->
        exists v s',
          Components.loadListData instant code d s
          = (Components.mkDashboard (Some row) v None, s')
          /\ Notions.in_sync (GroceryList.id row) v s'
          /\ Notions.ascending (fun i => instant (Item.created_at i))
                               (Realtime.items v)
          /\ Notions.ascending Category.display_order (Realtime.categories v)
          /\ Notions.tables s' = Notions.tables s).
Proof.
  split.
  - intros Hinvalid. unfold Components.loadListData, Api.getListByCode.
    by rewrite Hinvalid.
  - intros row Hvalid Hout Hrow.
    destruct (loadListData_found instant code d s row Hvalid Hout Hrow)
      as (s' & Hrun & Ht & _).
    eexists _, s'. split; [exact Hrun|]. simpl.
    injection Ht as Hl Hc Hi.
    split; [|split; [apply order_by_ascending|
                     split; [apply order_by_ascending|]]].
    + unfold Notions.in_sync, Notions.items_of, Notions.categories_of. simpl.
      rewrite Hc, Hi. split; apply order_by_perm.
    + unfold Notions.tables. by rewrite Hl, Hc, Hi.
Qed.


Lemma loadListData_shows_the_rows_of_the_list_witness :
  exists v s',
    Components.loadListData Cases.instant "GRO-ABCDEFG"
      (Components.mkDashboard None (Realtime.mkView [] []) None)
      Sample.list_with_snacks
    = (Components.mkDashboard (Some (GroceryList.mk "L1" "GRO-ABCDEFG" "t1"))
         v None, s')
    /\ Notions.in_sync "L1" v s'
    /\ Notions.ascending Category.display_order (Realtime.categories v).
Proof.
  destruct (loadListData_shows_the_rows_of_the_list Cases.instant
              "GRO-ABCDEFG"
              (Components.mkDashboard None (Realtime.mkView [] []) None)
              Sample.list_with_snacks) as [_ Hfound].
  destruct (Hfound (GroceryList.mk "L1" "GRO-ABCDEFG" "t1")
              eq_refl eq_refl eq_refl)
    as (v & s' & Hrun & Hsync & _ & Hasc & _).
  exists v, s'. split; [exact Hrun|]. split; [exact Hsync|exact Hasc].
Defined.

(** * Undoing and failing half-way *)

Lemma filter_all {A} (p : A -> bool) (l : list A) :
  (forall x, In x l -> p x = true) -> List.filter p l = l.
Proof.
  intros H. apply forallb_filter_id. by apply forallb_forall.
Qed.

(** X12: on a store that serves every request, for a name and a category
    that are not blank and an identifier no stored item has, [addItem]
    followed by [deleteItem] of the created item leaves the three tables as
    they were before the two calls. *)
Theorem deleteItem_undoes_addItem (listId name category : string)
    (s : Store.t) :
  Store.outcomes s = [] ->
  Js.trim name <> EmptyString ->
  Js.trim category <> EmptyString ->
  (forall i, In i (Store.items s) ->
     Item.id i <> Store.uuid s (S (length (Store.journal s))) 0) ->
  exists item s1 s2,
    Api.addItem listId name category s = (Api.Ok item, s1)
    /\ Store.items s1 = Store.items s ++ [item]
    /\ Reads.deleteItem (Item.id item) s1 = (Api.Ok tt, s2)
    /\ Notions.tables s2 = Notions.tables s.
Proof.
  intros Hout Hname Hcat Hfresh.
  rewrite addItem_served by (try done; by apply next_failure_nil).
  eexists _, _, _. split; [reflexivity|]. simpl. split; [done|].
  rewrite deleteItem_run by (apply next_failure_nil; simpl; by rewrite Hout).
  split; [reflexivity|]. unfold Notions.tables. simpl. f_equal.
  rewrite List.filter_app. simpl. rewrite String.eqb_refl. simpl.
  rewrite app_nil_r. apply filter_all. intros i Hi.
  apply negb_true_iff. apply String.eqb_neq.
  rewrite length_app. simpl. rewrite Nat.add_1_r. by apply Hfresh.
Qed.

Lemma deleteItem_undoes_addItem_witness :
  exists item s1 s2,
    Api.addItem "L1" " pane " "Panetteria" Sample.list_with_snacks
    = (Api.Ok item, s1)
    /\ Store.items s1 = [Sample.milk; Sample.chips; item]
    /\ Reads.deleteItem (Item.id item) s1 = (Api.Ok tt, s2)
    /\ Store.items s2 = [Sample.milk; Sample.chips].
Proof.
  destruct (deleteItem_undoes_addItem "L1" " pane " "Panetteria"
              Sample.list_with_snacks)
    as (item & s1 & s2 & Hadd & Hitems & Hdelete & Ht).
  - reflexivity.
  - discriminate.
  - discriminate.
  - intros i Hin. destruct Hin as [<-|[<-|[]]]; discriminate.
  - exists item, s1, s2. split; [exact Hadd|]. split; [exact Hitems|].
    split; [exact Hdelete|]. by injection Ht.
Defined.

(** X23: when the lookup and the reassignment of [deleteCategory] are
    served and the final delete fails, [handleDeleteCategory] shows
    [CATEGORY_DELETE_FAILED] and leaves the page as it was, while in the
    store the category is still there and the items of the list that
    carried its name carry ["Altro"].  If the page shows such an item and
    the category is not named ["Altro"], the page no longer shows what the
    store holds. *)
Theorem failed_category_delete_leaves_items_moved (listId : string)
    (v : Realtime.View) (s : Store.t) (category : Category.t)
    (e : Store.PostgrestError) :
  Notions.in_sync listId v s ->
  In category (Realtime.categories v) ->
  Category.is_default category = false ->
  List.NoDup (List.map Category.id (Store.categories s)) ->
  Store.outcomes s = [None; None; Some e] ->
  let w := Components.handleDeleteCategory listId (Category.id category) v s in
  Components.error w = Some Components.CATEGORY_DELETE_FAILED
  /\ Components.view w = v
  /\ Store.categories (Components.store w) = Store.categories s
  /\ Store.items (Components.store w)
     = List.map (Store.reassign listId (Category.name category) "Altro")
                (Store.items s)
  /\ (Category.name category <> "Altro"%string ->
      (exists i, In i (Realtime.items v)
                 /\ Item.category i = Category.name category) ->
      ~ Notions.in_sync listId (Components.view w) (Components.store w)).
Proof.
  intros Hsync Hin Hcustom Hnd Hout.
  destruct (in_sync_category listId v s category Hsync Hin) as [Hstored _].
  destruct (deleteCategory_reassigns_before_delete (Category.id category)
              listId s category e Hout
              (filter_unique Category.id _ _ Hnd Hstored) Hcustom)
    as (s' & Hrun & Hitems & Hcats).
  unfold Components.handleDeleteCategory. rewrite Hrun. simpl.
  split; [done|]. split; [done|]. split; [done|]. split; [done|].
  intros Hname (i & Hi & Hic) [Hbad _].
  apply list_elem_of_In in Hi. rewrite Hbad in Hi.
  apply list_elem_of_In in Hi. unfold Notions.items_of in Hi.
  apply filter_In in Hi as [Hi Hl]. rewrite Hitems in Hi.
  apply in_map_iff in Hi as (j & <- & _).
  unfold Store.reassign in Hic, Hl.
  destruct (String.eqb (Item.list_id j) listId) eqn:El; simpl in Hic, Hl.
  - destruct (String.eqb_spec (Item.category j) (Category.name category));
      simpl in Hic; [|done]. by symmetry in Hic.
  - congruence.
Qed.

Lemma failed_category_delete_leaves_items_moved_witness :
  Components.error
    (Components.handleDeleteCategory "L1" "c100" Cases.shown
       Cases.refusing_third)
  = Some Components.CATEGORY_DELETE_FAILED
  /\ ~ Notions.in_sync "L1"
         (Components.view
            (Components.handleDeleteCategory "L1" "c100" Cases.shown
               Cases.refusing_third))
         (Components.store
            (Components.handleDeleteCategory "L1" "c100" Cases.shown
               Cases.refusing_third)).
Proof.
  destruct (failed_category_delete_leaves_items_moved "L1" Cases.shown
              Cases.refusing_third Sample.snacks Cases.refused)
    as (Herror & _ & _ & _ & Hout).
  - split; apply Permutation_refl.
  - do 6 right. left. reflexivity.
  - reflexivity.
  - repeat constructor; simpl; intuition discriminate.
  - reflexivity.
  - split; [exact Herror|]. apply Hout; [discriminate|].
    exists Sample.chips. split; [right; left; reflexivity|reflexivity].
Defined.
